(** * Legacy network weights: construction defaults and batch-norm folding

    A shallow embedding of [src/neural/network_legacy.cc] (Leela Chess Zero):
    the [LegacyWeights::ConvBlock] constructor with its legacy-format
    defaults, the in-place helpers [InvertVector] / [OffsetVector], the
    const accessors [GetInvertedStddev] / [GetOffsetMeans], [FoldBN], and the
    constructors of the aggregate ([LegacyWeights], [Residual], [SEunit]).

    Conventions of the embedding.
    - [size_t] is a 64-bit unsigned integer: values are [N], every
      multiplication and addition is reduced modulo [2^64], and integer
      division by zero is undefined behaviour.
    - [float] arithmetic is an interface ([Float32Ops]); the code is
      translated once, over the interface.  [Binary32] instantiates it with
      IEEE-754 single precision (round to nearest even), [RealArith] with
      the real numbers.
    - [std::vector<float>] is [list F] and [size()] its length; [v[i]]
      outside the vector is undefined behaviour and is reported as
      [Undefined OutOfBounds].  A real vector holds fewer than [2^64]
      elements; the statements that need this say so.
    - Member functions are computations in a state-and-error monad over the
      object ([method]). *)

From Stdlib Require Import ZArith NArith Lia Ring.
From Stdlib Require Import Reals.
From Stdlib Require Floats.SpecFloat.
From stdpp Require Import base tactics option list numbers.

Set Default Proof Using "Type".

(** ** size_t *)

Module SizeT.
Definition width : N := 64.
Definition modulus : N := 2 ^ width.

Definition wrap (x : N) : N := x mod modulus.
Definition add (a b : N) : N := wrap (a + b).
Definition mul (a b : N) : N := wrap (a * b).

(** [a / b] on unsigned integers; [None] when [b] is zero. *)
Definition div (a b : N) : option N :=
  if (b =? 0)%N then None else Some (a / b)%N.
End SizeT.

(** ** float *)

(** The floating-point operations and literals the translation unit uses. *)
Class Float32Ops (F : Type) := {
  lit_0 : F;                (* 0.0f *)
  lit_1 : F;                (* 1.0f *)
  lit_1e_5 : F;             (* 1e-5f *)
  fadd : F -> F -> F;
  fsub : F -> F -> F;
  fmul : F -> F -> F;
  fdiv : F -> F -> F;
  fneg : F -> F;
  fsqrt : F -> F            (* std::sqrt(float) *)
}.

Declare Scope flt_scope.
Delimit Scope flt_scope with flt.
Infix "+" := fadd : flt_scope.
Infix "-" := fsub : flt_scope.
Infix "*" := fmul : flt_scope.
Infix "/" := fdiv : flt_scope.
Notation "- x" := (fneg x) : flt_scope.

(** IEEE-754 binary32, the arithmetic the compiled code runs on. *)
Module Binary32.
Import Floats.SpecFloat.

Definition prec : Z := 24.
Definition emax : Z := 128.
Definition float : Type := spec_float.

(** [m * 2^e], rounded to nearest even. *)
Definition of_scaled (m e : Z) : float := binary_normalize prec emax m e false.
Definition of_Z (m : Z) : float := of_scaled m 0.

Definition add : float -> float -> float := SFadd prec emax.
Definition sub : float -> float -> float := SFsub prec emax.
Definition mul : float -> float -> float := SFmul prec emax.
Definition div : float -> float -> float := SFdiv prec emax.
Definition sqrt : float -> float := SFsqrt prec emax.
Definition neg : float -> float := SFopp.

(** The literal [1e-5f]: the binary32 number nearest to 1/100000. *)
Definition one_e_minus_5 : float :=
  Eval vm_compute in div (of_Z 1) (of_Z 100000).

#[global] Instance ops : Float32Ops float := {|
  lit_0 := S754_zero false;
  lit_1 := of_Z 1;
  lit_1e_5 := one_e_minus_5;
  fadd := add; fsub := sub; fmul := mul; fdiv := div;
  fneg := neg; fsqrt := sqrt
|}.
End Binary32.

(** Exact real arithmetic, the arithmetic of the folding identity. *)
Module RealArith.
#[global] Instance ops : Float32Ops R := {|
  lit_0 := 0%R;
  lit_1 := 1%R;
  lit_1e_5 := (1 / 100000)%R;
  fadd := Rplus; fsub := Rminus; fmul := Rmult; fdiv := Rdiv;
  fneg := Ropp; fsqrt := R_sqrt.sqrt
|}.
End RealArith.

(** ** The serialized block (pblczero::Weights::ConvBlock)

    The protobuf record and [LayerAdapter] live outside this translation
    unit; the record is kept abstract in the layer type and the adapter's
    [as_vector] is a parameter of the constructor. *)

Module pblczero.
Record ConvBlock (Layer : Type) := {
  weights : Layer;
  biases : Layer;
  bn_gammas : Layer;
  bn_betas : Layer;
  bn_means : Layer;
  bn_stddivs : Layer
}.
Arguments weights {Layer}.
Arguments biases {Layer}.
Arguments bn_gammas {Layer}.
Arguments bn_betas {Layer}.
Arguments bn_means {Layer}.
Arguments bn_stddivs {Layer}.

Record SEunit (Layer : Type) := {
  w1 : Layer;
  b1 : Layer;
  w2 : Layer;
  b2 : Layer
}.
Arguments w1 {Layer}.
Arguments b1 {Layer}.
Arguments w2 {Layer}.
Arguments b2 {Layer}.

(** [se()] returns the default message when the field is not set;
    [has_se()] tells which. *)
Record Residual (Layer : Type) := {
  conv1 : ConvBlock Layer;
  conv2 : ConvBlock Layer;
  se : SEunit Layer;
  has_se : bool
}.
Arguments conv1 {Layer}.
Arguments conv2 {Layer}.
Arguments se {Layer}.
Arguments has_se {Layer}.

Record Weights (Layer : Type) := {
  input : ConvBlock Layer;
  residual : list (Residual Layer);
  policy1 : ConvBlock Layer;
  policy : ConvBlock Layer;
  ip_pol_w : Layer;
  ip_pol_b : Layer;
  value : ConvBlock Layer;
  ip1_val_w : Layer;
  ip1_val_b : Layer;
  ip2_val_w : Layer;
  ip2_val_b : Layer
}.
Arguments input {Layer}.
Arguments residual {Layer}.
Arguments policy1 {Layer}.
Arguments policy {Layer}.
Arguments ip_pol_w {Layer}.
Arguments ip_pol_b {Layer}.
Arguments value {Layer}.
Arguments ip1_val_w {Layer}.
Arguments ip1_val_b {Layer}.
Arguments ip2_val_w {Layer}.
Arguments ip2_val_b {Layer}.
End pblczero.

(** ** LegacyWeights::ConvBlock *)

Record ConvBlock (F : Type) := {
  weights : list F;
  biases : list F;
  bn_gammas : list F;
  bn_betas : list F;
  bn_means : list F;
  bn_stddivs : list F
}.
Arguments weights {F}.
Arguments biases {F}.
Arguments bn_gammas {F}.
Arguments bn_betas {F}.
Arguments bn_means {F}.
Arguments bn_stddivs {F}.

(** The six vector members, as lvalues. *)
Inductive member :=
  | Weights | Biases | BnGammas | BnBetas | BnMeans | BnStddivs.

#[export] Instance member_eq_dec : EqDecision member.
Proof. solve_decision. Defined.

(** Undefined behaviour the code can run into. *)
Inductive ub := OutOfBounds | DivisionByZero.

Inductive result (A : Type) :=
  | Ok (a : A)
  | Undefined (e : ub).
Arguments Ok {A}.
Arguments Undefined {A}.

Section Model.
Context {F : Type} `{Float32Ops F}.

Local Open Scope N_scope.

Definition get_member (m : member) (cb : ConvBlock F) : list F :=
  match m with
  | Weights => weights cb
  | Biases => biases cb
  | BnGammas => bn_gammas cb
  | BnBetas => bn_betas cb
  | BnMeans => bn_means cb
  | BnStddivs => bn_stddivs cb
  end.

Definition set_member (m : member) (v : list F) (cb : ConvBlock F)
  : ConvBlock F :=
  match m with
  | Weights =>
      {| weights := v; biases := biases cb; bn_gammas := bn_gammas cb;
         bn_betas := bn_betas cb; bn_means := bn_means cb;
         bn_stddivs := bn_stddivs cb |}
  | Biases =>
      {| weights := weights cb; biases := v; bn_gammas := bn_gammas cb;
         bn_betas := bn_betas cb; bn_means := bn_means cb;
         bn_stddivs := bn_stddivs cb |}
  | BnGammas =>
      {| weights := weights cb; biases := biases cb; bn_gammas := v;
         bn_betas := bn_betas cb; bn_means := bn_means cb;
         bn_stddivs := bn_stddivs cb |}
  | BnBetas =>
      {| weights := weights cb; biases := biases cb;
         bn_gammas := bn_gammas cb; bn_betas := v; bn_means := bn_means cb;
         bn_stddivs := bn_stddivs cb |}
  | BnMeans =>
      {| weights := weights cb; biases := biases cb;
         bn_gammas := bn_gammas cb; bn_betas := bn_betas cb; bn_means := v;
         bn_stddivs := bn_stddivs cb |}
  | BnStddivs =>
      {| weights := weights cb; biases := biases cb;
         bn_gammas := bn_gammas cb; bn_betas := bn_betas cb;
         bn_means := bn_means cb; bn_stddivs := v |}
  end.

(** *** Member functions as state-and-error computations *)

Definition method (A : Type) : Type := ConvBlock F -> result (A * ConvBlock F).

Definition ret {A} (a : A) : method A := fun cb => Ok (a, cb).

Definition bind {A B} (c : method A) (k : A -> method B) : method B :=
  fun cb =>
    match c cb with
    | Ok (a, cb') => k a cb'
    | Undefined e => Undefined e
    end.

Definition undefined {A} (e : ub) : method A := fun _ => Undefined e.

(** [v.size()] *)
Definition size (m : member) : method N :=
  fun cb => Ok (N.of_nat (length (get_member m cb)), cb).

(** Reading [v[i]]. *)
Definition load (m : member) (i : N) : method F :=
  fun cb =>
    match get_member m cb !! N.to_nat i with
    | Some x => Ok (x, cb)
    | None => Undefined OutOfBounds
    end.

(** Writing [v[i] = x]. *)
Definition store (m : member) (i : N) (x : F) : method unit :=
  fun cb =>
    let v := get_member m cb in
    if decide (N.to_nat i < length v)%nat
    then Ok (tt, set_member m (<[N.to_nat i := x]> v) cb)
    else Undefined OutOfBounds.

(** [v.emplace_back(x)] *)
Definition emplace_back (m : member) (x : F) : method unit :=
  fun cb => Ok (tt, set_member m (get_member m cb ++ [x]) cb).

(** Unsigned division; a zero divisor is undefined behaviour. *)
Definition udiv (a b : N) : method N :=
  match SizeT.div a b with
  | Some q => ret q
  | None => undefined DivisionByZero
  end.

(** [for (auto i = size_t{0}; i < n; i++) body(i)].  The bounds of the
    loops below are sizes of vectors the loop body does not resize. *)
Fixpoint for_from (k : nat) (i : N) (body : N -> method unit) : method unit :=
  match k with
  | O => ret tt
  | S k' => bind (body i) (fun _ => for_from k' (N.succ i) body)
  end.

Definition for_ (n : N) (body : N -> method unit) : method unit :=
  for_from (N.to_nat n) 0 body.
End Model.

Arguments method : clear implicits.

Declare Scope method_scope.
Delimit Scope method_scope with method.
Notation "x <- c ;; k" := (bind c (fun x => k))
  (at level 100, c at next level, right associativity) : method_scope.
Notation "c ;; k" := (bind c (fun _ => k))
  (at level 100, right associativity) : method_scope.

(** ** The translation unit *)

Section NetworkLegacy.
Context {F : Type} `{Float32Ops F}.

Local Open Scope N_scope.
Local Open Scope method_scope.

(** static constexpr float kEpsilon = 1e-5f; *)
Definition kEpsilon : F := lit_1e_5.

(** void InvertVector(std::vector<float>* vec): the vector behind [vec]
    before the call is mapped to the vector behind it after the call. *)
Definition InvertVector (vec : list F) : list F :=
  (fun x => lit_1 / fsqrt (x + kEpsilon))%flt <$> vec.

(** void OffsetVector(std::vector<float>* means, const std::vector<float>&
    biases): [std::transform] walks [means] and reads [biases] in step with
    it; running past the end of [biases] is undefined behaviour. *)
Fixpoint OffsetVector (means biases : list F) : result (list F) :=
  match means, biases with
  | [], _ => Ok []
  | _ :: _, [] => Undefined OutOfBounds
  | m :: means', b :: biases' =>
      match OffsetVector means' biases' with
      | Ok r => Ok ((m - b)%flt :: r)
      | Undefined e => Undefined e
      end
  end.

(** Passing the address of member [m] to a procedure on a vector. *)
Definition on_member (m : member) (proc : list F -> result (list F))
  : method F unit :=
  fun cb =>
    match proc (get_member m cb) with
    | Ok v => Ok (tt, set_member m v cb)
    | Undefined e => Undefined e
    end.

(** Reading a whole member (a copy, or a const reference to a member the
    callee does not write). *)
Definition read (m : member) : method F (list F) :=
  fun cb => Ok (get_member m cb, cb).

Section Constructor.
Context {Layer : Type} (as_vector : Layer -> list F).

(** The member initialiser list. *)
Definition ConvBlock_init (block : pblczero.ConvBlock Layer) : ConvBlock F :=
  {| weights := as_vector (pblczero.weights block);
     biases := as_vector (pblczero.biases block);
     bn_gammas := as_vector (pblczero.bn_gammas block);
     bn_betas := as_vector (pblczero.bn_betas block);
     bn_means := as_vector (pblczero.bn_means block);
     bn_stddivs := as_vector (pblczero.bn_stddivs block) |}.

(** The constructor body. *)
Definition ConvBlock_body : method F unit :=
  nbetas <- size BnBetas ;;
  (if nbetas =? 0 then
     (* Old net without gamma and beta. *)
     n <- size BnMeans ;;
     for_ n (fun _ =>
       emplace_back BnBetas lit_0 ;;
       emplace_back BnGammas lit_1)
   else ret tt) ;;
  nbiases <- size Biases ;;
  (if nbiases =? 0 then
     n <- size BnMeans ;;
     for_ n (fun _ => emplace_back Biases lit_0)
   else ret tt).

(** LegacyWeights::ConvBlock::ConvBlock(const pblczero::Weights::ConvBlock&) *)
Definition ConvBlock_new (block : pblczero.ConvBlock Layer)
  : result (unit * ConvBlock F) :=
  ConvBlock_body (ConvBlock_init block).
End Constructor.

(** void LegacyWeights::ConvBlock::InvertStddev() *)
Definition InvertStddev : method F unit :=
  on_member BnStddivs (fun v => Ok (InvertVector v)).

(** void LegacyWeights::ConvBlock::OffsetMeans() *)
Definition OffsetMeans : method F unit :=
  b <- read Biases ;;
  on_member BnMeans (fun means => OffsetVector means b).

(** std::vector<float> LegacyWeights::ConvBlock::GetInvertedStddev() const *)
Definition GetInvertedStddev : method F (list F) :=
  stddivs <- read BnStddivs ;;                 (* Copy. *)
  let stddivs := InvertVector stddivs in
  ret stddivs.

(** std::vector<float> LegacyWeights::ConvBlock::GetOffsetMeans() const *)
Definition GetOffsetMeans : method F (list F) :=
  means <- read BnMeans ;;                     (* Copy. *)
  b <- read Biases ;;
  match OffsetVector means b with
  | Ok means => ret means
  | Undefined e => undefined e
  end.

(** The index expression [o * inputs * spatialSize + c * spatialSize + i]. *)
Definition weight_index (o inputs spatialSize c i : N) : N :=
  SizeT.add
    (SizeT.add (SizeT.mul (SizeT.mul o inputs) spatialSize)
               (SizeT.mul c spatialSize))
    i.

(** void LegacyWeights::ConvBlock::FoldBN(size_t filterSize) *)
Definition FoldBN (filterSize : N) : method F unit :=
  let epsilon : F := lit_1e_5 in
  (* Variance to gamma. *)
  n <- size BnStddivs ;;
  for_ n (fun i =>
    g <- load BnGammas i ;;
    sd <- load BnStddivs i ;;
    store BnGammas i (g * (lit_1 / fsqrt (sd + epsilon)))%flt ;;
    store BnStddivs i lit_1 ;;
    m <- load BnMeans i ;;
    b <- load Biases i ;;
    store BnMeans i (m - b)%flt ;;
    store Biases i lit_0) ;;
  let spatialSize := SizeT.mul filterSize filterSize in
  outputs <- size Biases ;;
  nweights <- size Weights ;;
  inputs <- udiv nweights (SizeT.mul outputs spatialSize) ;;
  for_ outputs (fun o =>
    for_ inputs (fun c =>
      for_ spatialSize (fun i =>
        let idx := weight_index o inputs spatialSize c i in
        w <- load Weights idx ;;
        g <- load BnGammas o ;;
        store Weights idx (w * g)%flt)) ;;
    g <- load BnGammas o ;;
    m <- load BnMeans o ;;
    be <- load BnBetas o ;;
    store Biases o (- g * m + be)%flt ;;
    store BnMeans o lit_0 ;;
    store BnBetas o lit_0).
End NetworkLegacy.

(** ** The aggregate (LegacyWeights and its nested structs)

    The members are read off the constructors' initialiser lists. *)

Module Legacy.
Record SEunit (F : Type) := {
  w1 : list F;
  b1 : list F;
  w2 : list F;
  b2 : list F
}.
Arguments w1 {F}.
Arguments b1 {F}.
Arguments w2 {F}.
Arguments b2 {F}.

Record Residual (F : Type) := {
  conv1 : ConvBlock F;
  conv2 : ConvBlock F;
  se : SEunit F;
  has_se : bool
}.
Arguments conv1 {F}.
Arguments conv2 {F}.
Arguments se {F}.
Arguments has_se {F}.

Record Weights (F : Type) := {
  input : ConvBlock F;
  residual : list (Residual F);
  policy1 : ConvBlock F;
  policy : ConvBlock F;
  ip_pol_w : list F;
  ip_pol_b : list F;
  value : ConvBlock F;
  ip1_val_w : list F;
  ip1_val_b : list F;
  ip2_val_w : list F;
  ip2_val_b : list F
}.
Arguments input {F}.
Arguments residual {F}.
Arguments policy1 {F}.
Arguments policy {F}.
Arguments ip_pol_w {F}.
Arguments ip_pol_b {F}.
Arguments value {F}.
Arguments ip1_val_w {F}.
Arguments ip1_val_b {F}.
Arguments ip2_val_w {F}.
Arguments ip2_val_b {F}.
End Legacy.

Section Aggregate.
Context {F : Type} `{Float32Ops F}.
Context {Layer : Type} (as_vector : Layer -> list F).

Definition and_then {A B} (r : result A) (k : A -> result B) : result B :=
  match r with
  | Ok a => k a
  | Undefined e => Undefined e
  end.

(** A ConvBlock member initialised from a serialized block. *)
Definition ConvBlock_of (block : pblczero.ConvBlock Layer)
  : result (ConvBlock F) :=
  and_then (ConvBlock_new as_vector block) (fun r => Ok (snd r)).

(** LegacyWeights::SEunit::SEunit(const pblczero::Weights::SEunit&) *)
Definition SEunit_new (se : pblczero.SEunit Layer) : Legacy.SEunit F :=
  {| Legacy.w1 := as_vector (pblczero.w1 se);
     Legacy.b1 := as_vector (pblczero.b1 se);
     Legacy.w2 := as_vector (pblczero.w2 se);
     Legacy.b2 := as_vector (pblczero.b2 se) |}.

(** LegacyWeights::Residual::Residual(const pblczero::Weights::Residual&) *)
Definition Residual_new (residual : pblczero.Residual Layer)
  : result (Legacy.Residual F) :=
  and_then (ConvBlock_of (pblczero.conv1 residual)) (fun c1 =>
  and_then (ConvBlock_of (pblczero.conv2 residual)) (fun c2 =>
  Ok {| Legacy.conv1 := c1;
        Legacy.conv2 := c2;
        Legacy.se := SEunit_new (pblczero.se residual);
        Legacy.has_se := pblczero.has_se residual |})).

(** [for (const auto& res : weights.residual()) residual.emplace_back(res);]
    with [tower] the vector built so far. *)
Fixpoint emplace_residuals (rs : list (pblczero.Residual Layer))
    (tower : list (Legacy.Residual F)) : result (list (Legacy.Residual F)) :=
  match rs with
  | [] => Ok tower
  | res :: rs' =>
      and_then (Residual_new res) (fun r =>
      emplace_residuals rs' (tower ++ [r]))
  end.

(** LegacyWeights::LegacyWeights(const pblczero::Weights&) *)
Definition LegacyWeights_new (weights : pblczero.Weights Layer)
  : result (Legacy.Weights F) :=
  and_then (ConvBlock_of (pblczero.input weights)) (fun input =>
  and_then (ConvBlock_of (pblczero.policy1 weights)) (fun policy1 =>
  and_then (ConvBlock_of (pblczero.policy weights)) (fun policy =>
  and_then (ConvBlock_of (pblczero.value weights)) (fun value =>
  and_then (emplace_residuals (pblczero.residual weights) []) (fun tower =>
  Ok {| Legacy.input := input;
        Legacy.residual := tower;
        Legacy.policy1 := policy1;
        Legacy.policy := policy;
        Legacy.ip_pol_w := as_vector (pblczero.ip_pol_w weights);
        Legacy.ip_pol_b := as_vector (pblczero.ip_pol_b weights);
        Legacy.value := value;
        Legacy.ip1_val_w := as_vector (pblczero.ip1_val_w weights);
        Legacy.ip1_val_b := as_vector (pblczero.ip1_val_b weights);
        Legacy.ip2_val_w := as_vector (pblczero.ip2_val_w weights);
        Legacy.ip2_val_b := as_vector (pblczero.ip2_val_b weights) |}))))).

(** A serialized block whose non-empty fields agree on the channel count. *)
Definition size_consistent (block : pblczero.ConvBlock Layer) (n : nat)
  : Prop :=
  length (as_vector (pblczero.bn_means block)) = n /\
  length (as_vector (pblczero.bn_stddivs block)) = n /\
  (as_vector (pblczero.biases block) = [] \/
   length (as_vector (pblczero.biases block)) = n) /\
  (as_vector (pblczero.bn_betas block) = [] /\
   as_vector (pblczero.bn_gammas block) = [] \/
   as_vector (pblczero.bn_betas block) <> [] /\
   length (as_vector (pblczero.bn_betas block)) = n /\
   length (as_vector (pblczero.bn_gammas block)) = n).

(** Every ConvBlock of the aggregate, in network order. *)
Definition conv_blocks (w : Legacy.Weights F) : list (ConvBlock F) :=
  Legacy.input w
  :: (r ← Legacy.residual w; [Legacy.conv1 r; Legacy.conv2 r])
  ++ [Legacy.policy1 w; Legacy.policy w; Legacy.value w].

Definition serialized_conv_blocks (w : pblczero.Weights Layer)
  : list (pblczero.ConvBlock Layer) :=
  pblczero.input w
  :: (r ← pblczero.residual w; [pblczero.conv1 r; pblczero.conv2 r])
  ++ [pblczero.policy1 w; pblczero.policy w; pblczero.value w].
End Aggregate.

(** ** Inference-time semantics of a block

    The convolution and the batch-norm layer are executed by the compute
    backends, outside this translation unit. *)

Section Inference.
Context {F : Type} `{Float32Ops F}.

(** [v[i]] where the index is known to be in range. *)
Definition at_ (v : list F) (i : nat) : F := default lit_0 (v !! i).

(** Modelled from the spec: the accumulation of a convolution's products. *)
Definition sum_list (ts : list F) : F := foldr fadd lit_0 ts.

(** Modelled from the spec: the products of one output value, kernel tap
    [i] of input channel [c] times the input value [field c i] under that
    tap, with the weights laid out as
    [output_channel][input_channel][spatial_position]. *)
Definition conv_terms (w : list F) (inputs spatial o : nat)
    (field : nat -> nat -> F) : list F :=
  c ← seq 0 inputs;
  i ← seq 0 spatial;
  [(at_ w (o * inputs * spatial + c * spatial + i) * field c i)%flt].

(** Modelled from the spec: the convolution of the block, followed by the
    bias add.  The value of output channel [o] at one output position,
    where [field] is the receptive field of that position. *)
Definition convolution (cb : ConvBlock F) (inputs filterSize : N) (o : nat)
    (field : nat -> nat -> F) : F :=
  let spatial := N.to_nat (filterSize * filterSize) in
  (sum_list (conv_terms (weights cb) (N.to_nat inputs) spatial o field)
   + at_ (biases cb) o)%flt.

(** Modelled from the spec: the receptive field of output position
    [(row, col)] in an input tensor indexed [channel][row][column], for a
    centred square kernel; rows and columns outside the board are whatever
    the tensor says they are (zero for the usual padding). *)
Definition receptive_field (filterSize : N) (input : nat -> Z -> Z -> F)
    (row col : Z) : nat -> nat -> F :=
  fun c i =>
    let fs := Z.of_N filterSize in
    input c (row + Z.of_nat i / fs - fs / 2)%Z
            (col + Z.of_nat i mod fs - fs / 2)%Z.

(** Modelled from the spec: the inference-time batch-norm transform
    [(x - mean) * (1 / sqrt (stddev + 1e-5)) * gamma + beta] of channel [o]. *)
Definition batch_norm (cb : ConvBlock F) (o : nat) (x : F) : F :=
  ((x - at_ (bn_means cb) o)
   * (lit_1 / fsqrt (at_ (bn_stddivs cb) o + lit_1e_5))
   * at_ (bn_gammas cb) o
   + at_ (bn_betas cb) o)%flt.
End Inference.

(** ** What [FoldBN] and the constructor compute, as closed forms *)

Section ClosedForms.
Context {F : Type} `{Float32Ops F}.

(** Per-channel vectors all of one length. *)
Definition channels (cb : ConvBlock F) (n : nat) : Prop :=
  length (biases cb) = n /\ length (bn_gammas cb) = n /\
  length (bn_betas cb) = n /\ length (bn_means cb) = n /\
  length (bn_stddivs cb) = n.

(** A block on which the index arithmetic of [FoldBN filterSize] stays
    within [size_t] and the divisor is not zero. *)
Definition foldable (filterSize : N) (cb : ConvBlock F) (n : nat) : Prop :=
  channels cb n /\
  (0 < N.of_nat n * (filterSize * filterSize) < SizeT.modulus)%N /\
  (N.of_nat (length (weights cb)) < SizeT.modulus)%N.

(** A vector a loop is rewriting front to back: the first [i] elements are
    already the new ones. *)
Definition spliced (i : nat) (new old : list F) : list F :=
  take i new ++ drop i old.

(** The truncated quotient [weights.size() / (outputs * spatialSize)]. *)
Definition fold_inputs (filterSize : N) (cb : ConvBlock F) : N :=
  (N.of_nat (length (weights cb))
   / (N.of_nat (length (biases cb)) * (filterSize * filterSize)))%N.

Definition scaled_gammas (cb : ConvBlock F) : list F :=
  zip_with (fun g sd => g * (lit_1 / fsqrt (sd + lit_1e_5)))%flt
           (bn_gammas cb) (bn_stddivs cb).

Definition offset_means (cb : ConvBlock F) : list F :=
  zip_with fsub (bn_means cb) (biases cb).

Definition folded_biases (cb : ConvBlock F) : list F :=
  zip_with fadd
    (zip_with (fun g m => - g * m)%flt (scaled_gammas cb) (offset_means cb))
    (bn_betas cb).

(** Weight [j] belongs to output channel [j / (inputs * spatialSize)]; the
    weights past [outputs * inputs * spatialSize] are not visited. *)
Definition folded_weights (filterSize : N) (cb : ConvBlock F) : list F :=
  let per_output := N.to_nat (fold_inputs filterSize cb * (filterSize * filterSize)) in
  imap (fun j w =>
          if decide (j < length (biases cb) * per_output)%nat
          then (w * at_ (scaled_gammas cb) (j / per_output))%flt
          else w)
       (weights cb).

Definition folded (filterSize : N) (cb : ConvBlock F) : ConvBlock F :=
  {| weights := folded_weights filterSize cb;
     biases := folded_biases cb;
     bn_gammas := scaled_gammas cb;
     bn_betas := replicate (length (bn_betas cb)) lit_0;
     bn_means := replicate (length (bn_means cb)) lit_0;
     bn_stddivs := replicate (length (bn_stddivs cb)) lit_1 |}.

(** The block after [i] iterations of the first loop. *)
Definition variance_to_gamma (cb : ConvBlock F) (i : N) : ConvBlock F :=
  let n := length (bn_stddivs cb) in
  {| weights := weights cb;
     biases := spliced (N.to_nat i) (replicate n lit_0) (biases cb);
     bn_gammas := spliced (N.to_nat i) (scaled_gammas cb) (bn_gammas cb);
     bn_betas := bn_betas cb;
     bn_means := spliced (N.to_nat i) (offset_means cb) (bn_means cb);
     bn_stddivs := spliced (N.to_nat i) (replicate n lit_1) (bn_stddivs cb) |}.

(** The block while the second loop runs: the output channels below [o]
    are finished and the first [k] weights are scaled. *)
Definition folding (filterSize : N) (cb : ConvBlock F) (o k : N)
  : ConvBlock F :=
  let n := length (biases cb) in
  {| weights :=
       spliced (N.to_nat k) (folded_weights filterSize cb) (weights cb);
     biases := spliced (N.to_nat o) (folded_biases cb) (replicate n lit_0);
     bn_gammas := scaled_gammas cb;
     bn_betas := spliced (N.to_nat o) (replicate n lit_0) (bn_betas cb);
     bn_means := spliced (N.to_nat o) (replicate n lit_0) (offset_means cb);
     bn_stddivs := replicate n lit_1 |}.

(** [cb'] has the vector sizes of [cb]. *)
Definition same_sizes (cb cb' : ConvBlock F) : Prop :=
  forall m, length (get_member m cb') = length (get_member m cb).

(** The block the constructor leaves behind. *)
Definition constructed (cb : ConvBlock F) : ConvBlock F :=
  let n := length (bn_means cb) in
  let old_net := bool_decide (bn_betas cb = []) in
  {| weights := weights cb;
     biases := if bool_decide (biases cb = []) then replicate n lit_0
               else biases cb;
     bn_gammas := if old_net then bn_gammas cb ++ replicate n lit_1
                  else bn_gammas cb;
     bn_betas := if old_net then replicate n lit_0 else bn_betas cb;
     bn_means := bn_means cb;
     bn_stddivs := bn_stddivs cb |}.
End ClosedForms.

Section AggregateClosedForms.
Context {F : Type} `{Float32Ops F}.
Context {Layer : Type} (as_vector : Layer -> list F).

(** The residual block the constructor leaves behind. *)
Definition Residual_built (residual : pblczero.Residual Layer)
  : Legacy.Residual F :=
  {| Legacy.conv1 :=
       constructed (ConvBlock_init as_vector (pblczero.conv1 residual));
     Legacy.conv2 :=
       constructed (ConvBlock_init as_vector (pblczero.conv2 residual));
     Legacy.se := SEunit_new as_vector (pblczero.se residual);
     Legacy.has_se := pblczero.has_se residual |}.
End AggregateClosedForms.


(** ** Concrete blocks *)

Module Examples.
Import Binary32.

Definition f32 (zs : list Z) : list float := of_Z <$> zs.

(** Ten weights for three output channels under a 2x2 filter: twelve do
    not go into ten. *)
Definition ragged : ConvBlock float :=
  {| weights := f32 [1; 2; 3; 4; 5; 6; 7; 8; 9; 10]%Z;
     biases := f32 [1; 1; 1]%Z;
     bn_gammas := f32 [2; 2; 2]%Z;
     bn_betas := f32 [0; 0; 0]%Z;
     bn_means := f32 [4; 4; 4]%Z;
     bn_stddivs := f32 [4; 4; 4]%Z |}.

(** One output channel, one input channel, a 1x1 kernel: weight 2, bias 1,
    gamma 3, beta 1/2, mean 4, variance 4. *)
Definition single : ConvBlock float :=
  {| weights := f32 [2]%Z;
     biases := f32 [1]%Z;
     bn_gammas := f32 [3]%Z;
     bn_betas := [of_scaled 1 (-1)];
     bn_means := f32 [4]%Z;
     bn_stddivs := f32 [4]%Z |}.


(** An input tensor that is 1 everywhere. *)
Definition ones : nat -> Z -> Z -> float := fun _ _ _ => of_Z 1.

(** Serialized blocks whose layers are already flat. *)
Definition serialized (w b g be m sd : list Z)
  : pblczero.ConvBlock (list float) :=
  {| pblczero.weights := f32 w;
     pblczero.biases := f32 b;
     pblczero.bn_gammas := f32 g;
     pblczero.bn_betas := f32 be;
     pblczero.bn_means := f32 m;
     pblczero.bn_stddivs := f32 sd |}.

Definition as_vector (layer : list float) : list float := layer.

(** Two means, one variance. *)
Definition mismatched_stats : pblczero.ConvBlock (list float) :=
  serialized [5; 6]%Z [7; 8]%Z [1; 1]%Z [0; 0]%Z [4; 4]%Z [9]%Z.

(** A gamma but no beta. *)
Definition gamma_without_beta : pblczero.ConvBlock (list float) :=
  serialized [5]%Z [7]%Z [2]%Z []%Z [4]%Z [9]%Z.

(** An old net: no gammas, no betas, no biases. *)
Definition old_net : pblczero.ConvBlock (list float) :=
  serialized [5; 6]%Z []%Z []%Z []%Z [4; 4]%Z [9; 9]%Z.

(** Three biases for two channels. *)
Definition extra_bias : pblczero.ConvBlock (list float) :=
  serialized [5; 6]%Z [7; 8; 9]%Z [1; 1]%Z [0; 0]%Z [4; 4]%Z [9; 9]%Z.

(** One bias for two channels. *)
Definition one_bias : pblczero.ConvBlock (list float) :=
  serialized [5; 6]%Z [7]%Z [1; 1]%Z [0; 0]%Z [4; 4]%Z [9; 9]%Z.

(** Two biases for three variances. *)
Definition short_bias : ConvBlock float :=
  {| weights := f32 [1; 2; 3]%Z;
     biases := f32 [1; 1]%Z;
     bn_gammas := f32 [2; 2; 2]%Z;
     bn_betas := f32 [0; 0; 0]%Z;
     bn_means := f32 [4; 4; 4]%Z;
     bn_stddivs := f32 [4; 4; 4]%Z |}.

(** A new-format block with two channels. *)
Definition new_net : pblczero.ConvBlock (list float) :=
  serialized [5; 6]%Z [7; 8]%Z [1; 1]%Z [0; 0]%Z [4; 4]%Z [9; 9]%Z.

Definition no_se : pblczero.SEunit (list float) :=
  {| pblczero.w1 := []; pblczero.b1 := [];
     pblczero.w2 := []; pblczero.b2 := [] |}.

(** A net with a tower of two residual blocks, old and new format mixed. *)
Definition net : pblczero.Weights (list float) :=
  {| pblczero.input := old_net;
     pblczero.residual :=
       [ {| pblczero.conv1 := old_net; pblczero.conv2 := new_net;
            pblczero.se := no_se; pblczero.has_se := false |};
         {| pblczero.conv1 := new_net; pblczero.conv2 := old_net;
            pblczero.se := no_se; pblczero.has_se := true |} ];
     pblczero.policy1 := new_net;
     pblczero.policy := old_net;
     pblczero.ip_pol_w := f32 [1; 2]%Z;
     pblczero.ip_pol_b := f32 [3]%Z;
     pblczero.value := old_net;
     pblczero.ip1_val_w := f32 [4]%Z;
     pblczero.ip1_val_b := f32 [5]%Z;
     pblczero.ip2_val_w := f32 [6]%Z;
     pblczero.ip2_val_b := f32 [7]%Z |}.
End Examples.
(** * Verification *)

(** ** The literal 1e-5f *)

(** [Binary32.one_e_minus_5] is [10995116 * 2^-40], and no binary32 number
    is nearer to 1/100000: the error is below half a unit in the last
    place. *)
Lemma one_e_minus_5_nearest :
  Binary32.one_e_minus_5 = SpecFloat.S754_finite false 10995116 (-40) /\
  (2 * Z.abs (10995116 * 10 ^ 5 - 2 ^ 40) < 10 ^ 5)%Z /\
  (2 ^ 23 <= 10995116 < 2 ^ 24)%Z.
Proof. split; [reflexivity |]. split; [reflexivity | lia]. Qed.

(** ** The monad and its loops *)

Section MonadFacts.
Context {F : Type} `{Float32Ops F}.

Local Open Scope method_scope.

Lemma get_set_member (m : member) (v : list F) (cb : ConvBlock F) :
  get_member m (set_member m v cb) = v.
Proof. by destruct m. Qed.

Lemma get_set_member_ne (m m' : member) (v : list F) (cb : ConvBlock F) :
  m <> m' -> get_member m' (set_member m v cb) = get_member m' cb.
Proof. by destruct m, m'. Qed.

Lemma bind_ok {A B} (c : method F A) (k : A -> method F B) cb a cb' :
  c cb = Ok (a, cb') -> bind c k cb = k a cb'.
Proof. unfold bind. by intros ->. Qed.

Lemma bind_undefined {A B} (c : method F A) (k : A -> method F B) cb e :
  c cb = Undefined e -> bind c k cb = Undefined e.
Proof. unfold bind. by intros ->. Qed.

Lemma load_ok (m : member) (i : N) (x : F) cb :
  get_member m cb !! N.to_nat i = Some x -> load m i cb = Ok (x, cb).
Proof. unfold load. by intros ->. Qed.

Lemma store_ok (m : member) (i : N) (x : F) cb :
  (N.to_nat i < length (get_member m cb))%nat ->
  store m i x cb = Ok (tt, set_member m (<[N.to_nat i := x]> (get_member m cb)) cb).
Proof. unfold store. intros Hi. by rewrite decide_True. Qed.

(** A loop whose [i]-th iteration takes [st i] to [st (i + 1)]. *)
Lemma for_from_steps (st : N -> ConvBlock F) (body : N -> method F unit) k i0 :
  (forall i, (i0 <= i < i0 + N.of_nat k)%N ->
             body i (st i) = Ok (tt, st (N.succ i))) ->
  for_from k i0 body (st i0) = Ok (tt, st (i0 + N.of_nat k)%N).
Proof.
  revert i0. induction k as [|k IH]; intros i0 Hstep; simpl.
  - unfold ret. by rewrite N.add_0_r.
  - rewrite (bind_ok _ _ _ tt (st (N.succ i0))) by (apply Hstep; lia).
    rewrite IH by (intros i Hi; apply Hstep; lia).
    do 2 f_equal. f_equal. lia.
Qed.

Lemma for_steps (st : N -> ConvBlock F) (body : N -> method F unit) n :
  (forall i, (i < n)%N -> body i (st i) = Ok (tt, st (N.succ i))) ->
  for_ n body (st 0%N) = Ok (tt, st n).
Proof.
  intros Hstep. unfold for_.
  rewrite (for_from_steps st) by (intros i Hi; apply Hstep; lia).
  do 2 f_equal. f_equal. lia.
Qed.

(** A loop that maintains an invariant runs to completion. *)
Lemma for_from_invariant (P : ConvBlock F -> Prop) (body : N -> method F unit)
    k i0 cb :
  P cb ->
  (forall i cb, (i0 <= i < i0 + N.of_nat k)%N -> P cb ->
                exists cb', body i cb = Ok (tt, cb') /\ P cb') ->
  exists cb', for_from k i0 body cb = Ok (tt, cb') /\ P cb'.
Proof.
  revert i0 cb. induction k as [|k IH]; intros i0 cb HP Hstep; simpl.
  - by exists cb.
  - destruct (Hstep i0 cb) as (cb1 & Hb & HP1); [lia | done |].
    rewrite (bind_ok _ _ _ tt cb1) by done.
    apply IH; [done |]. intros i cb2 Hi. apply Hstep. lia.
Qed.

Lemma for_invariant (P : ConvBlock F -> Prop) (body : N -> method F unit) n cb :
  P cb ->
  (forall i cb, (i < n)%N -> P cb ->
                exists cb', body i cb = Ok (tt, cb') /\ P cb') ->
  exists cb', for_ n body cb = Ok (tt, cb') /\ P cb'.
Proof.
  intros HP Hstep. apply for_from_invariant; [done |].
  intros i cb' Hi. apply Hstep. lia.
Qed.
End MonadFacts.

(** ** The constructor *)

Section ConstructorFacts.
Context {F : Type} `{Float32Ops F}.

Local Open Scope method_scope.

Lemma replicate_succ_end (x : F) (i : N) :
  replicate (N.to_nat (N.succ i)) x = replicate (N.to_nat i) x ++ [x].
Proof. rewrite N2Nat.inj_succ. apply replicate_S_end. Qed.

(** The loop of the first [if]: [i] rounds of the two [emplace_back]s. *)
Lemma fill_betas_gammas (cb : ConvBlock F) (n : N) :
  for_ n (fun _ => emplace_back BnBetas lit_0 ;; emplace_back BnGammas lit_1) cb
  = Ok (tt, set_member BnGammas (bn_gammas cb ++ replicate (N.to_nat n) lit_1)
              (set_member BnBetas (bn_betas cb ++ replicate (N.to_nat n) lit_0) cb)).
Proof.
  pose (st := fun i : N =>
    set_member BnGammas (bn_gammas cb ++ replicate (N.to_nat i) lit_1)
      (set_member BnBetas (bn_betas cb ++ replicate (N.to_nat i) lit_0) cb)).
  assert (Hst : st 0%N = cb).
  { unfold st. destruct cb; simpl. by rewrite !app_nil_r. }
  rewrite <- Hst at 1. apply (for_steps st). intros i _.
  unfold st, bind, emplace_back. simpl.
  by rewrite !replicate_succ_end, !app_assoc.
Qed.

Lemma fill_biases (cb : ConvBlock F) (n : N) :
  for_ n (fun _ => emplace_back Biases lit_0) cb
  = Ok (tt, set_member Biases (biases cb ++ replicate (N.to_nat n) lit_0) cb).
Proof.
  pose (st := fun i : N =>
    set_member Biases (biases cb ++ replicate (N.to_nat i) lit_0) cb).
  assert (Hst : st 0%N = cb).
  { unfold st. destruct cb; simpl. by rewrite app_nil_r. }
  rewrite <- Hst at 1. apply (for_steps st). intros i _.
  unfold st, emplace_back. simpl.
  by rewrite replicate_succ_end, app_assoc.
Qed.

Lemma size_zero_iff (v : list F) : (N.of_nat (length v) =? 0)%N = bool_decide (v = []).
Proof. by destruct v. Qed.

(** The constructor body never fails, and leaves [constructed]. *)
Lemma ConvBlock_body_constructed (cb : ConvBlock F) :
  ConvBlock_body cb = Ok (tt, constructed cb).
Proof.
  unfold ConvBlock_body, constructed, bind, size, ret. simpl.
  rewrite size_zero_iff.
  destruct cb as [w b g be m sd]; simpl.
  destruct be as [|be0 be]; simpl.
  - rewrite fill_betas_gammas; simpl. rewrite size_zero_iff, Nat2N.id.
    destruct b as [|b0 b]; simpl; [| done].
    rewrite fill_biases; simpl. by rewrite Nat2N.id.
  - rewrite size_zero_iff.
    destruct b as [|b0 b]; simpl; [| done].
    rewrite fill_biases; simpl. by rewrite Nat2N.id.
Qed.

Lemma ConvBlock_new_constructed {Layer} (as_vector : Layer -> list F)
    (block : pblczero.ConvBlock Layer) :
  ConvBlock_new as_vector block
  = Ok (tt, constructed (ConvBlock_init as_vector block)).
Proof. apply ConvBlock_body_constructed. Qed.
End ConstructorFacts.

(** ** Vectors rewritten front to back *)

Section Spliced.
Context {F : Type} `{Float32Ops F}.
Implicit Types new old : list F.

Lemma spliced_0 new old : spliced 0 new old = old.
Proof. done. Qed.

Lemma spliced_all i new old :
  length new = length old -> length old <= i -> spliced i new old = new.
Proof.
  intros Hlen Hi. unfold spliced.
  rewrite take_ge, drop_ge by lia. apply app_nil_r.
Qed.

Lemma spliced_length i new old :
  length new = length old -> length (spliced i new old) = length old.
Proof.
  intros Hlen. unfold spliced.
  rewrite length_app, length_take, length_drop. lia.
Qed.

Lemma spliced_lookup_ge i j new old :
  i <= length new -> i <= j -> spliced i new old !! j = old !! j.
Proof.
  intros Hi Hj. unfold spliced.
  rewrite lookup_app_r; rewrite length_take; [| lia].
  rewrite lookup_drop. f_equal. lia.
Qed.

Lemma spliced_lookup_lt i j new old :
  j < i -> j < length new -> spliced i new old !! j = new !! j.
Proof.
  intros Hj Hlen. unfold spliced.
  rewrite lookup_app_l by (rewrite length_take; lia).
  by rewrite lookup_take_lt.
Qed.

Lemma spliced_insert i x new old :
  length new = length old -> new !! i = Some x ->
  <[i := x]> (spliced i new old) = spliced (S i) new old.
Proof.
  intros Hlen Hx.
  assert (Hi : i < length new) by (by eapply lookup_lt_Some).
  apply list_eq. intros j.
  destruct (decide (j = i)) as [-> | Hne].
  - rewrite list_lookup_insert_eq by (rewrite spliced_length; lia).
    by rewrite spliced_lookup_lt by lia.
  - rewrite list_lookup_insert_ne by done.
    destruct (decide (j < i)).
    + by rewrite !spliced_lookup_lt by lia.
    + by rewrite !spliced_lookup_ge by lia.
Qed.
End Spliced.

(** ** FoldBN *)

Section FoldBNFacts.
Context {F : Type} `{Float32Ops F}.

Local Open Scope method_scope.

Lemma length_scaled_gammas (cb : ConvBlock F) n :
  channels cb n -> length (scaled_gammas cb) = n.
Proof.
  intros (_ & ? & _ & _ & ?). unfold scaled_gammas.
  rewrite length_zip_with. lia.
Qed.

Lemma length_offset_means (cb : ConvBlock F) n :
  channels cb n -> length (offset_means cb) = n.
Proof.
  intros (? & _ & _ & ? & _). unfold offset_means.
  rewrite length_zip_with. lia.
Qed.

Lemma length_folded_biases (cb : ConvBlock F) n :
  channels cb n -> length (folded_biases cb) = n.
Proof.
  intros Hc. unfold folded_biases.
  rewrite !length_zip_with, (length_scaled_gammas cb n),
    (length_offset_means cb n) by done.
  destruct Hc as (_ & _ & ? & _). lia.
Qed.

Lemma lookup_scaled_gammas (cb : ConvBlock F) i g sd :
  bn_gammas cb !! i = Some g -> bn_stddivs cb !! i = Some sd ->
  scaled_gammas cb !! i = Some (g * (lit_1 / fsqrt (sd + lit_1e_5)))%flt.
Proof.
  intros Hg Hsd. unfold scaled_gammas.
  by rewrite lookup_zip_with, Hg, Hsd.
Qed.

Lemma lookup_offset_means (cb : ConvBlock F) i m b :
  bn_means cb !! i = Some m -> biases cb !! i = Some b ->
  offset_means cb !! i = Some (m - b)%flt.
Proof.
  intros Hm Hb. unfold offset_means.
  by rewrite lookup_zip_with, Hm, Hb.
Qed.

Lemma lookup_folded_biases (cb : ConvBlock F) i g m be :
  scaled_gammas cb !! i = Some g -> offset_means cb !! i = Some m ->
  bn_betas cb !! i = Some be ->
  folded_biases cb !! i = Some (- g * m + be)%flt.
Proof.
  intros Hg Hm Hbe. unfold folded_biases.
  by rewrite !lookup_zip_with, Hg, Hm, Hbe.
Qed.

Lemma variance_to_gamma_step (cb : ConvBlock F) (n : nat) (i : N) :
  channels cb n -> (i < N.of_nat n)%N ->
  (g <- load BnGammas i ;;
    sd <- load BnStddivs i ;;
    store BnGammas i (g * (lit_1 / fsqrt (sd + lit_1e_5)))%flt ;;
    store BnStddivs i lit_1 ;;
    m <- load BnMeans i ;;
    b <- load Biases i ;;
    store BnMeans i (m - b)%flt ;;
    store Biases i lit_0) (variance_to_gamma cb i)
  = Ok (tt, variance_to_gamma cb (N.succ i)).
Proof.
  intros Hc Hi.
  pose proof (length_scaled_gammas cb n Hc) as Hlg.
  pose proof (length_offset_means cb n Hc) as Hlm.
  destruct Hc as (Hb & Hg & Hbe & Hm & Hsd).
  destruct (lookup_lt_is_Some_2 (bn_gammas cb) (N.to_nat i)) as [g Hgi]; [lia|].
  destruct (lookup_lt_is_Some_2 (bn_stddivs cb) (N.to_nat i)) as [sd Hsdi]; [lia|].
  destruct (lookup_lt_is_Some_2 (bn_means cb) (N.to_nat i)) as [m Hmi]; [lia|].
  destruct (lookup_lt_is_Some_2 (biases cb) (N.to_nat i)) as [b Hbi]; [lia|].
  unfold bind, load, store, variance_to_gamma; simpl.
  rewrite spliced_lookup_ge, Hgi by lia; simpl.
  rewrite spliced_lookup_ge, Hsdi by (rewrite ?length_replicate; lia); simpl.
  rewrite decide_True by (rewrite spliced_length; lia); simpl.
  rewrite decide_True
    by (rewrite spliced_length; rewrite ?length_replicate; lia); simpl.
  rewrite spliced_lookup_ge, Hmi by lia; simpl.
  rewrite spliced_lookup_ge, Hbi by (rewrite ?length_replicate; lia); simpl.
  rewrite decide_True by (rewrite spliced_length; lia); simpl.
  rewrite decide_True
    by (rewrite spliced_length; rewrite ?length_replicate; lia); simpl.
  rewrite N2Nat.inj_succ.
  do 2 f_equal. f_equal.
  - apply spliced_insert; [rewrite length_replicate; lia |].
    apply lookup_replicate_2. lia.
  - apply spliced_insert; [lia |]. by apply lookup_scaled_gammas.
  - apply spliced_insert; [lia |]. by apply lookup_offset_means.
  - apply spliced_insert; [rewrite length_replicate; lia |].
    apply lookup_replicate_2. lia.
Qed.

(** *** Index arithmetic *)

Lemma weight_index_exact (o inputs spatialSize c i : N) :
  (o * inputs * spatialSize + c * spatialSize + i < SizeT.modulus)%N ->
  weight_index o inputs spatialSize c i
  = (o * inputs * spatialSize + c * spatialSize + i)%N.
Proof.
  intros Hlt. unfold weight_index, SizeT.add, SizeT.mul, SizeT.wrap.
  assert (Hoi : (o * inputs < SizeT.modulus \/ spatialSize = 0)%N) by nia.
  destruct Hoi as [Hoi | ->].
  - rewrite (N.mod_small (o * inputs)) by done.
    rewrite (N.mod_small (o * inputs * spatialSize)) by lia.
    rewrite (N.mod_small (c * spatialSize)) by lia.
    rewrite (N.mod_small (o * inputs * spatialSize + c * spatialSize)) by lia.
    apply N.mod_small. lia.
  - rewrite !N.mul_0_r in *. rewrite !N.Div0.mod_0_l. simpl.
    apply N.mod_small. lia.
Qed.

(** Wrapping only ever makes an index smaller. *)
Lemma weight_index_le (o inputs spatialSize c i : N) :
  (weight_index o inputs spatialSize c i
   <= o * inputs * spatialSize + c * spatialSize + i)%N.
Proof.
  unfold weight_index, SizeT.add, SizeT.mul, SizeT.wrap.
  assert (Hle : forall a, (a mod SizeT.modulus <= a)%N)
    by (intros a; by apply N.Div0.mod_le).
  pose proof (Hle (o * inputs)%N) as H1.
  pose proof (Hle ((o * inputs) mod SizeT.modulus * spatialSize)%N) as H2.
  pose proof (Hle (c * spatialSize)%N) as H3.
  etrans; [apply Hle |].
  apply N.add_le_mono_r.
  etrans; [apply Hle |].
  apply N.add_le_mono; [| done].
  etrans; [apply H2 |]. by apply N.mul_le_mono_r.
Qed.

Lemma spatialSize_exact (filterSize : N) (cb : ConvBlock F) n :
  foldable filterSize cb n ->
  SizeT.mul filterSize filterSize = (filterSize * filterSize)%N.
Proof.
  intros (_ & Hn & _). unfold SizeT.mul, SizeT.wrap.
  apply N.mod_small.
  assert (N.of_nat n <> 0)%N by (intros E; rewrite E in Hn; lia).
  nia.
Qed.

Lemma fold_inputs_bound (filterSize : N) (cb : ConvBlock F) n :
  channels cb n ->
  (N.of_nat n * fold_inputs filterSize cb * (filterSize * filterSize)
   <= N.of_nat (length (weights cb)))%N.
Proof.
  intros (Hb & _). unfold fold_inputs. rewrite Hb.
  destruct (decide (N.of_nat n * (filterSize * filterSize) = 0)%N) as [Hz | Hnz].
  - assert (N.of_nat n = 0 \/ filterSize * filterSize = 0)%N as [-> | ->] by lia; lia.
  - pose proof (N.Div0.mul_div_le (N.of_nat (length (weights cb)))
                  (N.of_nat n * (filterSize * filterSize))) as Hle.
    lia.
Qed.

(** *** The closed form of the weights *)

Lemma length_folded_weights (filterSize : N) (cb : ConvBlock F) :
  length (folded_weights filterSize cb) = length (weights cb).
Proof. unfold folded_weights. apply length_imap. Qed.

Lemma lookup_folded_weights_lt (filterSize : N) (cb : ConvBlock F) n
    (o k : N) w g :
  channels cb n ->
  (o < N.of_nat n)%N ->
  (o * (fold_inputs filterSize cb * (filterSize * filterSize)) <= k
   < N.succ o * (fold_inputs filterSize cb * (filterSize * filterSize)))%N ->
  weights cb !! N.to_nat k = Some w ->
  scaled_gammas cb !! N.to_nat o = Some g ->
  folded_weights filterSize cb !! N.to_nat k = Some (w * g)%flt.
Proof.
  intros (Hb & _) Ho Hk Hw Hg. unfold folded_weights.
  set (P := (fold_inputs filterSize cb * (filterSize * filterSize))%N) in *.
  rewrite list_lookup_imap, Hw. simpl.
  rewrite decide_True by (rewrite Hb; nia).
  assert (Hdiv : (N.to_nat k / N.to_nat P)%nat = N.to_nat o).
  { rewrite <- N2Nat.inj_div. f_equal. symmetry.
    apply (N.div_unique k P o (k - o * P)); lia. }
  unfold at_. by rewrite Hdiv, Hg.
Qed.

Lemma lookup_folded_weights_ge (filterSize : N) (cb : ConvBlock F) n j :
  channels cb n ->
  (n * N.to_nat (fold_inputs filterSize cb * (filterSize * filterSize)) <= j)%nat ->
  folded_weights filterSize cb !! j = weights cb !! j.
Proof.
  intros (Hb & _) Hj. unfold folded_weights.
  rewrite list_lookup_imap. destruct (weights cb !! j) as [w|]; [| done].
  simpl. by rewrite decide_False by (rewrite Hb; lia).
Qed.

Lemma spliced_folded_weights (filterSize : N) (cb : ConvBlock F) n k :
  channels cb n ->
  (n * N.to_nat (fold_inputs filterSize cb * (filterSize * filterSize)) <= k)%nat ->
  spliced k (folded_weights filterSize cb) (weights cb)
  = folded_weights filterSize cb.
Proof.
  intros Hc Hk. apply list_eq. intros j.
  destruct (decide (j < k)%nat).
  - destruct (decide (j < length (weights cb))%nat).
    + by rewrite spliced_lookup_lt by (rewrite ?length_folded_weights; lia).
    + rewrite (lookup_ge_None_2 (folded_weights _ _))
        by (rewrite length_folded_weights; lia).
      apply lookup_ge_None_2.
      rewrite spliced_length by apply length_folded_weights. lia.
  - destruct (decide (k <= length (weights cb))%nat).
    + rewrite spliced_lookup_ge by (rewrite ?length_folded_weights; lia).
      symmetry. eapply lookup_folded_weights_ge; [done | lia].
    + by rewrite spliced_all by (rewrite ?length_folded_weights; lia).
Qed.

(** *** The second loop, innermost first *)

Lemma scale_weight_step (filterSize : N) (cb : ConvBlock F) n (o c i : N) :
  foldable filterSize cb n ->
  let spatialSize := (filterSize * filterSize)%N in
  let inputs := fold_inputs filterSize cb in
  (o < N.of_nat n)%N -> (c < inputs)%N -> (i < spatialSize)%N ->
  let k := (o * inputs * spatialSize + c * spatialSize + i)%N in
  (let idx := weight_index o inputs spatialSize c i in
   w <- load Weights idx ;;
   g <- load BnGammas o ;;
   store Weights idx (w * g)%flt) (folding filterSize cb o k)
  = Ok (tt, folding filterSize cb o (N.succ k)).
Proof.
  intros (Hc & Hn & Hw) spatialSize inputs Ho Hci Hi k.
  pose proof (fold_inputs_bound filterSize cb n Hc) as Hbound.
  fold spatialSize inputs in Hbound.
  assert (Hk : (k < N.of_nat (length (weights cb)))%N) by (unfold k; nia).
  simpl. rewrite weight_index_exact by (fold k; lia). fold k.
  destruct (lookup_lt_is_Some_2 (weights cb) (N.to_nat k)) as [w Hwk]; [lia |].
  destruct (lookup_lt_is_Some_2 (scaled_gammas cb) (N.to_nat o)) as [g Hgo].
  { rewrite (length_scaled_gammas cb n Hc). lia. }
  unfold bind, load, store, folding; simpl.
  rewrite spliced_lookup_ge, Hwk
    by (rewrite ?length_folded_weights; lia); simpl.
  rewrite Hgo; simpl.
  rewrite decide_True
    by (rewrite spliced_length by apply length_folded_weights; lia); simpl.
  rewrite N2Nat.inj_succ. do 2 f_equal. f_equal.
  apply spliced_insert; [apply length_folded_weights |].
  eapply lookup_folded_weights_lt; [done | done | | done | done].
  fold spatialSize inputs. unfold k. nia.
Qed.

Lemma scale_channel_weights (filterSize : N) (cb : ConvBlock F) n (o : N) :
  foldable filterSize cb n ->
  let spatialSize := (filterSize * filterSize)%N in
  let inputs := fold_inputs filterSize cb in
  (o < N.of_nat n)%N ->
  for_ inputs (fun c =>
    for_ spatialSize (fun i =>
      let idx := weight_index o inputs spatialSize c i in
      w <- load Weights idx ;;
      g <- load BnGammas o ;;
      store Weights idx (w * g)%flt))
    (folding filterSize cb o (o * inputs * spatialSize))
  = Ok (tt, folding filterSize cb o (N.succ o * inputs * spatialSize)).
Proof.
  intros Hfold spatialSize inputs Ho.
  pose (st := fun c : N =>
    folding filterSize cb o (o * inputs * spatialSize + c * spatialSize)).
  replace (folding filterSize cb o (o * inputs * spatialSize)) with (st 0%N)
    by (unfold st; f_equal; lia).
  replace (folding filterSize cb o (N.succ o * inputs * spatialSize))
    with (st inputs) by (unfold st; f_equal; lia).
  apply (for_steps st). intros c Hci.
  pose (st' := fun i : N =>
    folding filterSize cb o (o * inputs * spatialSize + c * spatialSize + i)).
  replace (st c) with (st' 0%N) by (unfold st, st'; f_equal; lia).
  replace (st (N.succ c)) with (st' spatialSize)
    by (unfold st, st'; f_equal; lia).
  apply (for_steps st'). intros i Hi. unfold st'.
  replace (o * inputs * spatialSize + c * spatialSize + N.succ i)%N
    with (N.succ (o * inputs * spatialSize + c * spatialSize + i)) by lia.
  by apply (scale_weight_step filterSize cb n o c i).
Qed.

Lemma fold_channel_step (filterSize : N) (cb : ConvBlock F) n (o : N) :
  foldable filterSize cb n ->
  let spatialSize := (filterSize * filterSize)%N in
  let inputs := fold_inputs filterSize cb in
  (o < N.of_nat n)%N ->
  (for_ inputs (fun c =>
     for_ spatialSize (fun i =>
       let idx := weight_index o inputs spatialSize c i in
       w <- load Weights idx ;;
       g <- load BnGammas o ;;
       store Weights idx (w * g)%flt)) ;;
   g <- load BnGammas o ;;
   m <- load BnMeans o ;;
   be <- load BnBetas o ;;
   store Biases o (- g * m + be)%flt ;;
   store BnMeans o lit_0 ;;
   store BnBetas o lit_0)
    (folding filterSize cb o (o * inputs * spatialSize))
  = Ok (tt, folding filterSize cb (N.succ o) (N.succ o * inputs * spatialSize)).
Proof.
  intros Hfold spatialSize inputs Ho.
  rewrite (bind_ok _ _ _ tt
             (folding filterSize cb o (N.succ o * inputs * spatialSize)))
    by (by apply (scale_channel_weights filterSize cb n o)).
  destruct Hfold as (Hc & _).
  pose proof (length_scaled_gammas cb n Hc) as Hlg.
  pose proof (length_offset_means cb n Hc) as Hlm.
  pose proof (length_folded_biases cb n Hc) as Hlb.
  destruct Hc as (Hb & Hg & Hbe & Hm & Hsd).
  destruct (lookup_lt_is_Some_2 (scaled_gammas cb) (N.to_nat o)) as [g Hgo]; [lia |].
  destruct (lookup_lt_is_Some_2 (offset_means cb) (N.to_nat o)) as [m Hmo]; [lia |].
  destruct (lookup_lt_is_Some_2 (bn_betas cb) (N.to_nat o)) as [be Hbeo]; [lia |].
  unfold bind, load, store, folding; simpl.
  rewrite Hgo; simpl.
  rewrite spliced_lookup_ge, Hmo by (rewrite ?length_replicate; lia); simpl.
  rewrite spliced_lookup_ge, Hbeo by (rewrite ?length_replicate; lia); simpl.
  rewrite decide_True
    by (rewrite spliced_length; rewrite ?length_replicate; lia); simpl.
  rewrite decide_True
    by (rewrite spliced_length; rewrite ?length_replicate; lia); simpl.
  rewrite decide_True
    by (rewrite spliced_length; rewrite ?length_replicate; lia); simpl.
  rewrite N2Nat.inj_succ. do 2 f_equal. f_equal.
  - apply spliced_insert; [rewrite length_replicate; lia |].
    by apply lookup_folded_biases.
  - apply spliced_insert; [rewrite length_replicate; lia |].
    apply lookup_replicate_2. lia.
  - apply spliced_insert; [rewrite length_replicate; lia |].
    apply lookup_replicate_2. lia.
Qed.

(** *** The whole function *)

Lemma variance_to_gamma_done (filterSize : N) (cb : ConvBlock F) n :
  channels cb n ->
  variance_to_gamma cb (N.of_nat n) = folding filterSize cb 0 0.
Proof.
  intros Hc.
  pose proof (length_scaled_gammas cb n Hc) as Hlg.
  pose proof (length_offset_means cb n Hc) as Hlm.
  destruct Hc as (Hb & Hg & Hbe & Hm & Hsd).
  unfold variance_to_gamma, folding. simpl.
  rewrite Nat2N.id, !spliced_0, !spliced_all
    by (rewrite ?length_replicate; lia).
  by rewrite Hb, Hsd.
Qed.

Lemma folding_done (filterSize : N) (cb : ConvBlock F) n :
  channels cb n ->
  folding filterSize cb (N.of_nat n)
    (N.of_nat n * fold_inputs filterSize cb * (filterSize * filterSize))
  = folded filterSize cb.
Proof.
  intros Hc.
  pose proof (length_folded_biases cb n Hc) as Hlb.
  pose proof (length_offset_means cb n Hc) as Hlm.
  unfold folding, folded.
  rewrite (spliced_folded_weights filterSize cb n) by (done || lia).
  destruct Hc as (Hb & Hg & Hbe & Hm & Hsd).
  rewrite Nat2N.id, !spliced_all by (rewrite ?length_replicate; lia).
  by rewrite Hb, Hbe, Hm, Hsd.
Qed.

(** The first loop, then the two [size()] calls. *)
Lemma FoldBN_after_first_loop (filterSize : N) (cb : ConvBlock F) n :
  channels cb n ->
  FoldBN filterSize cb
  = (let spatialSize := SizeT.mul filterSize filterSize in
     let outputs := N.of_nat n in
     inputs <- udiv (N.of_nat (length (weights cb)))
                    (SizeT.mul outputs spatialSize) ;;
     for_ outputs (fun o =>
       for_ inputs (fun c =>
         for_ spatialSize (fun i =>
           let idx := weight_index o inputs spatialSize c i in
           w <- load Weights idx ;;
           g <- load BnGammas o ;;
           store Weights idx (w * g)%flt)) ;;
       g <- load BnGammas o ;;
       m <- load BnMeans o ;;
       be <- load BnBetas o ;;
       store Biases o (- g * m + be)%flt ;;
       store BnMeans o lit_0 ;;
       store BnBetas o lit_0)) (folding filterSize cb 0 0).
Proof.
  intros Hc. unfold FoldBN.
  rewrite (bind_ok _ _ _ (N.of_nat n) cb)
    by (unfold size; simpl; destruct Hc as (_ & _ & _ & _ & ->); done).
  rewrite (bind_ok _ _ _ tt (folding filterSize cb 0 0)).
  2:{ rewrite <- (variance_to_gamma_done filterSize cb n Hc).
      replace cb with (variance_to_gamma cb 0) at 1
        by (unfold variance_to_gamma; destruct cb; done).
      apply (for_steps (variance_to_gamma cb)). intros i Hi.
      by apply (variance_to_gamma_step cb n). }
  rewrite (bind_ok _ _ _ (N.of_nat n) (folding filterSize cb 0 0)).
  2:{ unfold size, folding; simpl.
      rewrite spliced_0, length_replicate.
      destruct Hc as (-> & _). done. }
  by rewrite (bind_ok _ _ _ (N.of_nat (length (weights cb)))
                (folding filterSize cb 0 0)).
Qed.

(** On a foldable block [FoldBN] runs to completion and leaves [folded]. *)
Lemma FoldBN_folded (filterSize : N) (cb : ConvBlock F) n :
  foldable filterSize cb n ->
  FoldBN filterSize cb = Ok (tt, folded filterSize cb).
Proof.
  intros Hfold. pose proof Hfold as (Hc & Hn & Hw).
  rewrite (FoldBN_after_first_loop filterSize cb n Hc). simpl.
  rewrite (spatialSize_exact filterSize cb n Hfold).
  rewrite (bind_ok _ _ _ (fold_inputs filterSize cb)
             (folding filterSize cb 0 0)).
  2:{ unfold udiv, SizeT.div, SizeT.mul, SizeT.wrap.
      rewrite N.mod_small by lia.
      destruct (N.eqb_spec (N.of_nat n * (filterSize * filterSize)) 0) as [E | _];
        [lia |].
      unfold ret, fold_inputs. destruct Hc as (-> & _). done. }
  rewrite <- (folding_done filterSize cb n Hc).
  pose (st := fun o : N =>
    folding filterSize cb o
      (o * fold_inputs filterSize cb * (filterSize * filterSize))).
  change (folding filterSize cb 0 0) with (st 0%N).
  apply (for_steps st). intros o Ho.
  by apply (fold_channel_step filterSize cb n o).
Qed.

(** *** Memory safety, without a bound on the weight count *)

Lemma load_defined (m : member) (i : N) (cb0 cb : ConvBlock F) :
  same_sizes cb0 cb ->
  (N.to_nat i < length (get_member m cb0))%nat ->
  exists x, load m i cb = Ok (x, cb).
Proof.
  intros Hs Hi.
  destruct (lookup_lt_is_Some_2 (get_member m cb) (N.to_nat i)) as [x Hx].
  { rewrite Hs. lia. }
  exists x. by apply load_ok.
Qed.

Lemma store_defined (m : member) (i : N) (x : F) (cb0 cb : ConvBlock F) :
  same_sizes cb0 cb ->
  (N.to_nat i < length (get_member m cb0))%nat ->
  exists cb', store m i x cb = Ok (tt, cb') /\ same_sizes cb0 cb'.
Proof.
  intros Hs Hi. eexists. split.
  - apply store_ok. rewrite Hs. lia.
  - intros m'. destruct (decide (m = m')) as [<- | Hne].
    + by rewrite get_set_member, length_insert.
    + by rewrite get_set_member_ne.
Qed.

Lemma same_sizes_folding (filterSize : N) (cb : ConvBlock F) n :
  channels cb n -> same_sizes cb (folding filterSize cb 0 0).
Proof.
  intros Hc.
  pose proof (length_scaled_gammas cb n Hc) as Hlg.
  pose proof (length_offset_means cb n Hc) as Hlm.
  destruct Hc as (Hb & Hg & Hbe & Hm & Hsd).
  intros []; simpl; rewrite ?spliced_0, ?length_replicate; lia.
Qed.

Lemma scale_weight_defined (cb0 cb : ConvBlock F) (idx o : N) :
  same_sizes cb0 cb ->
  (N.to_nat idx < length (weights cb0))%nat ->
  (N.to_nat o < length (bn_gammas cb0))%nat ->
  exists cb',
    (w <- load Weights idx ;;
     g <- load BnGammas o ;;
     store Weights idx (w * g)%flt) cb = Ok (tt, cb')
    /\ same_sizes cb0 cb'.
Proof.
  intros Hs Hidx Ho.
  destruct (load_defined Weights idx cb0 cb) as [w Hw]; [done | done |].
  destruct (load_defined BnGammas o cb0 cb) as [g Hg]; [done | done |].
  rewrite (bind_ok _ _ _ w cb Hw), (bind_ok _ _ _ g cb Hg).
  by apply store_defined.
Qed.

Lemma fold_channel_defined (cb0 cb : ConvBlock F) n (inputs spatialSize o : N) :
  channels cb0 n -> same_sizes cb0 cb ->
  (N.of_nat n * inputs * spatialSize <= N.of_nat (length (weights cb0)))%N ->
  (o < N.of_nat n)%N ->
  exists cb',
    (for_ inputs (fun c =>
       for_ spatialSize (fun i =>
         let idx := weight_index o inputs spatialSize c i in
         w <- load Weights idx ;;
         g <- load BnGammas o ;;
         store Weights idx (w * g)%flt)) ;;
     g <- load BnGammas o ;;
     m <- load BnMeans o ;;
     be <- load BnBetas o ;;
     store Biases o (- g * m + be)%flt ;;
     store BnMeans o lit_0 ;;
     store BnBetas o lit_0) cb = Ok (tt, cb')
    /\ same_sizes cb0 cb'.
Proof.
  intros (Hb & Hg & Hbe & Hm & Hsd) Hs Hbound Ho.
  destruct (for_invariant (same_sizes cb0)
              (fun c => for_ spatialSize (fun i =>
                 let idx := weight_index o inputs spatialSize c i in
                 w <- load Weights idx ;;
                 g <- load BnGammas o ;;
                 store Weights idx (w * g)%flt)) inputs cb)
    as (cb1 & Hrun1 & Hs1); [done | |].
  { intros c cb2 Hci Hs2. apply for_invariant; [done |].
    intros i cb3 Hi Hs3. simpl.
    apply scale_weight_defined; [done | | lia].
    pose proof (weight_index_le o inputs spatialSize c i) as Hle.
    assert (Hin : (c * spatialSize + i < inputs * spatialSize)%N) by nia.
    assert (Hout : (o * inputs * spatialSize + inputs * spatialSize
                    <= N.of_nat n * inputs * spatialSize)%N) by nia.
    lia. }
  rewrite (bind_ok _ _ _ tt cb1 Hrun1).
  destruct (load_defined BnGammas o cb0 cb1) as [g Hgo]; [done | simpl; lia |].
  destruct (load_defined BnMeans o cb0 cb1) as [m Hmo]; [done | simpl; lia |].
  destruct (load_defined BnBetas o cb0 cb1) as [be Hbeo]; [done | simpl; lia |].
  rewrite (bind_ok _ _ _ g cb1 Hgo), (bind_ok _ _ _ m cb1 Hmo),
    (bind_ok _ _ _ be cb1 Hbeo).
  destruct (store_defined Biases o (- g * m + be)%flt cb0 cb1)
    as (cb2 & Hrun2 & Hs2); [done | simpl; lia |].
  rewrite (bind_ok _ _ _ tt cb2 Hrun2).
  destruct (store_defined BnMeans o lit_0 cb0 cb2)
    as (cb3 & Hrun3 & Hs3); [done | simpl; lia |].
  rewrite (bind_ok _ _ _ tt cb3 Hrun3).
  by apply store_defined; [| simpl; lia].
Qed.

Lemma FoldBN_defined (filterSize : N) (cb : ConvBlock F) n :
  channels cb n ->
  (0 < N.of_nat n * (filterSize * filterSize) < SizeT.modulus)%N ->
  exists cb', FoldBN filterSize cb = Ok (tt, cb') /\ same_sizes cb cb'.
Proof.
  intros Hc Hn.
  rewrite (FoldBN_after_first_loop filterSize cb n Hc). simpl.
  assert (Hspatial : SizeT.mul filterSize filterSize
                     = (filterSize * filterSize)%N).
  { unfold SizeT.mul, SizeT.wrap. apply N.mod_small.
    assert (N.of_nat n <> 0)%N by (intros E; rewrite E in Hn; lia). nia. }
  rewrite Hspatial.
  assert (Hprod : SizeT.mul (N.of_nat n) (filterSize * filterSize)
                  = (N.of_nat n * (filterSize * filterSize))%N).
  { unfold SizeT.mul, SizeT.wrap. apply N.mod_small. lia. }
  rewrite Hprod. unfold udiv, SizeT.div.
  destruct (N.eqb_spec (N.of_nat n * (filterSize * filterSize)) 0) as [E | _];
    [lia |].
  rewrite (bind_ok _ _ _
    (N.of_nat (length (weights cb)) / (N.of_nat n * (filterSize * filterSize)))%N
    (folding filterSize cb 0 0)) by done.
  apply for_invariant; [by apply (same_sizes_folding filterSize cb n) |].
  intros o cb1 Ho Hs1.
  apply (fold_channel_defined cb cb1 n); [done | done | | done].
  pose proof (fold_inputs_bound filterSize cb n Hc) as Hbound.
  unfold fold_inputs in Hbound. destruct Hc as (Hb & _).
  by rewrite Hb in Hbound.
Qed.

Lemma FoldBN_division_by_zero (filterSize : N) (cb : ConvBlock F) n :
  channels cb n ->
  SizeT.mul (N.of_nat n) (SizeT.mul filterSize filterSize) = 0%N ->
  FoldBN filterSize cb = Undefined DivisionByZero.
Proof.
  intros Hc Hz.
  rewrite (FoldBN_after_first_loop filterSize cb n Hc). simpl.
  by rewrite Hz.
Qed.
End FoldBNFacts.

(** ** Folding preserves what the block computes *)

Section FoldingIdentity.
Context {F : Type} `{Float32Ops F}.

(** The arithmetic is a commutative ring; [fdiv] and [fsqrt] are left
    uninterpreted. *)
Hypothesis arith_ring : ring_theory lit_0 lit_1 fadd fmul fsub fneg (@eq F).
Add Ring arith : arith_ring.



Lemma fold_inputs_exact (filterSize inputs : N) (cb : ConvBlock F) n :
  channels cb n ->
  (0 < N.of_nat n * (filterSize * filterSize))%N ->
  N.of_nat (length (weights cb))
  = (N.of_nat n * inputs * (filterSize * filterSize))%N ->
  fold_inputs filterSize cb = inputs.
Proof.
  intros (Hb & _) Hn Hw. unfold fold_inputs. rewrite Hb, Hw.
  symmetry. apply (N.div_unique _ _ inputs 0); lia.
Qed.

End FoldingIdentity.

(** * The claims *)

(** ** Construction *)

Section ConstructorClaims.
Context {F : Type} `{Float32Ops F}.
Context {Layer : Type} (as_vector : Layer -> list F).

(** C3 (as amended).  Construction validates nothing and never fails: for
    every serialized block it returns a ConvBlock whose weights, bn_means
    and bn_stddivs are the flattened input fields as they are, whatever
    their lengths. *)
Theorem ConvBlock_new_never_fails (block : pblczero.ConvBlock Layer) :
  exists cb,
    ConvBlock_new as_vector block = Ok (tt, cb) /\
    weights cb = as_vector (pblczero.weights block) /\
    bn_means cb = as_vector (pblczero.bn_means block) /\
    bn_stddivs cb = as_vector (pblczero.bn_stddivs block).
Proof.
  eexists. split; [apply ConvBlock_new_constructed |]. done.
Qed.

(** C4 (as amended).  With [n] the length of the flattened bn_means: if
    bn_betas is empty on input, then after construction bn_betas is [n]
    zeros and bn_gammas is the input bn_gammas followed by [n] ones; if
    bn_betas is present, bn_betas and bn_gammas are the input fields. *)
Theorem ConvBlock_new_default_betas_gammas (block : pblczero.ConvBlock Layer) :
  exists cb,
    ConvBlock_new as_vector block = Ok (tt, cb) /\
    let n := length (as_vector (pblczero.bn_means block)) in
    length (bn_means cb) = n /\
    (as_vector (pblczero.bn_betas block) = [] ->
       bn_betas cb = replicate n lit_0 /\
       bn_gammas cb = as_vector (pblczero.bn_gammas block) ++ replicate n lit_1) /\
    (as_vector (pblczero.bn_betas block) <> [] ->
       bn_betas cb = as_vector (pblczero.bn_betas block) /\
       bn_gammas cb = as_vector (pblczero.bn_gammas block)).
Proof.
  eexists. split; [apply ConvBlock_new_constructed |].
  unfold constructed; simpl. split; [done |]. split; intros Hbe.
  - by rewrite bool_decide_true.
  - by rewrite bool_decide_false.
Qed.

(** C5.  With [n] the length of the flattened bn_means: if biases is empty
    on input, then after construction biases has length [n] and every
    bias is 0.0; if biases is not empty it is the input field. *)
Theorem ConvBlock_new_default_biases (block : pblczero.ConvBlock Layer) :
  exists cb,
    ConvBlock_new as_vector block = Ok (tt, cb) /\
    let n := length (as_vector (pblczero.bn_means block)) in
    length (bn_means cb) = n /\
    (as_vector (pblczero.biases block) = [] ->
       length (biases cb) = n /\
       forall i b, biases cb !! i = Some b -> b = lit_0) /\
    (as_vector (pblczero.biases block) <> [] ->
       biases cb = as_vector (pblczero.biases block)).
Proof.
  eexists. split; [apply ConvBlock_new_constructed |].
  unfold constructed; simpl. split; [done |]. split; intros Hb.
  - rewrite bool_decide_true by done. split; [apply length_replicate |].
    intros i b Hi. by apply lookup_replicate in Hi as [-> _].
  - by rewrite bool_decide_false.
Qed.

(** C6 (as amended).  When the flattened bn_means and bn_stddivs both have
    length [n], biases is empty or of length [n], and bn_betas and
    bn_gammas are both empty or both of length [n], the constructed block
    has len(biases) = len(bn_gammas) = len(bn_betas) = len(bn_means) =
    len(bn_stddivs) = n. *)
Theorem ConvBlock_new_sizes_consistent (block : pblczero.ConvBlock Layer) (n : nat) :
  length (as_vector (pblczero.bn_means block)) = n ->
  length (as_vector (pblczero.bn_stddivs block)) = n ->
  (as_vector (pblczero.biases block) = [] \/
   length (as_vector (pblczero.biases block)) = n) ->
  (as_vector (pblczero.bn_betas block) = [] /\
   as_vector (pblczero.bn_gammas block) = [] \/
   as_vector (pblczero.bn_betas block) <> [] /\
   length (as_vector (pblczero.bn_betas block)) = n /\
   length (as_vector (pblczero.bn_gammas block)) = n) ->
  exists cb, ConvBlock_new as_vector block = Ok (tt, cb) /\ channels cb n.
Proof.
  intros Hm Hsd Hb Hbe.
  eexists. split; [apply ConvBlock_new_constructed |].
  unfold channels, constructed; simpl. repeat split; try done.
  - destruct Hb as [-> | Hb]; [by rewrite bool_decide_true, length_replicate |].
    by destruct (bool_decide _); rewrite ?length_replicate.
  - destruct Hbe as [[-> ->] | (Hne & _ & Hg)].
    + rewrite bool_decide_true by done. simpl. by rewrite length_replicate.
    + by rewrite bool_decide_false.
  - destruct Hbe as [[-> _] | (Hne & Hlen & _)].
    + by rewrite bool_decide_true, length_replicate.
    + by rewrite bool_decide_false.
Qed.
End ConstructorClaims.

(** C3, counterexample.  Two means and one variance: the constructor
    returns a block, with the mismatch in it. *)
Lemma ConvBlock_new_accepts_mismatched_stats :
  exists cb,
    ConvBlock_new Examples.as_vector Examples.mismatched_stats = Ok (tt, cb) /\
    length (bn_stddivs cb) = 1%nat /\ length (bn_means cb) = 2%nat.
Proof. eexists. split; [vm_compute; reflexivity |]. done. Qed.

(** C4, counterexample.  A gamma of 2.0 and no beta: after construction
    bn_gammas is [2.0; 1.0], neither all ones nor of length 1. *)
Lemma ConvBlock_new_appends_to_gammas :
  exists cb,
    ConvBlock_new Examples.as_vector Examples.gamma_without_beta = Ok (tt, cb) /\
    Examples.as_vector (pblczero.bn_betas Examples.gamma_without_beta) = [] /\
    length (bn_means cb) = 1%nat /\
    bn_gammas cb = [Binary32.of_Z 2; Binary32.of_Z 1] /\
    Binary32.of_Z 2 <> (lit_1 : Binary32.float).
Proof. eexists. split; [vm_compute; reflexivity |]. done. Qed.

(** C6, counterexample.  Three biases for two channels: the constructed
    block keeps all three. *)
Lemma ConvBlock_new_keeps_extra_bias :
  exists cb,
    ConvBlock_new Examples.as_vector Examples.extra_bias = Ok (tt, cb) /\
    length (biases cb) = 3%nat /\ length (bn_means cb) = 2%nat.
Proof. eexists. split; [vm_compute; reflexivity |]. done. Qed.

(** An old net satisfies the premises of the size invariant. *)
Lemma ConvBlock_new_sizes_consistent_old_net :
  exists cb,
    ConvBlock_new Examples.as_vector Examples.old_net = Ok (tt, cb) /\
    channels cb 2.
Proof.
  apply (ConvBlock_new_sizes_consistent Examples.as_vector Examples.old_net 2).
  - reflexivity.
  - reflexivity.
  - left. reflexivity.
  - left. split; reflexivity.
Defined.

(** ** The accessors *)

Section AccessorClaims.
Context {F : Type} `{Float32Ops F}.

Lemma OffsetVector_zip_with (means b : list F) :
  (length means <= length b)%nat ->
  OffsetVector means b = Ok (zip_with fsub means b).
Proof.
  revert b. induction means as [| m means IH]; intros [| b0 b] Hlen;
    simpl in *; try done; try lia.
  by rewrite IH by lia.
Qed.

Lemma OffsetVector_out_of_bounds (means b : list F) :
  (length b < length means)%nat ->
  OffsetVector means b = Undefined OutOfBounds.
Proof.
  revert b. induction means as [| m means IH]; intros [| b0 b] Hlen;
    simpl in *; try done; try lia.
  by rewrite IH by lia.
Qed.

(** The in-place siblings do write to the block. *)
Lemma InvertStddev_writes (cb : ConvBlock F) :
  InvertStddev cb = Ok (tt, set_member BnStddivs (InvertVector (bn_stddivs cb)) cb).
Proof. done. Qed.

Lemma OffsetMeans_writes (cb : ConvBlock F) :
  (length (bn_means cb) <= length (biases cb))%nat ->
  OffsetMeans cb
  = Ok (tt, set_member BnMeans (zip_with fsub (bn_means cb) (biases cb)) cb).
Proof.
  intros Hlen. unfold OffsetMeans, bind, read, on_member. simpl.
  by rewrite OffsetVector_zip_with.
Qed.

(** C8.  [GetInvertedStddev] returns, channel by channel,
    [1 / sqrt (stddev_i + 1e-5)], and the block after the call is the
    block before the call. *)
Theorem GetInvertedStddev_spec (cb : ConvBlock F) :
  exists v,
    GetInvertedStddev cb = Ok (v, cb) /\
    length v = length (bn_stddivs cb) /\
    forall i, v !! i
              = (fun sd => lit_1 / fsqrt (sd + lit_1e_5))%flt <$> bn_stddivs cb !! i.
Proof.
  exists (InvertVector (bn_stddivs cb)). split; [done |].
  unfold InvertVector. split; [apply length_fmap |].
  intros i. apply list_lookup_fmap.
Qed.

(** C9 (as amended).  On a block with a bias for every mean
    ([len(bn_means) <= len(biases)]), [GetOffsetMeans] returns,
    channel by channel, [mean_i - bias_i], and the block after the call is
    the block before the call. *)
Theorem GetOffsetMeans_spec (cb : ConvBlock F) :
  (length (bn_means cb) <= length (biases cb))%nat ->
  exists v,
    GetOffsetMeans cb = Ok (v, cb) /\
    length v = length (bn_means cb) /\
    forall i m b, bn_means cb !! i = Some m -> biases cb !! i = Some b ->
                  v !! i = Some (m - b)%flt.
Proof.
  intros Hlen. exists (zip_with fsub (bn_means cb) (biases cb)).
  split; [| split].
  - unfold GetOffsetMeans, bind, read. simpl.
    by rewrite OffsetVector_zip_with.
  - rewrite length_zip_with. lia.
  - intros i m b Hm Hb. by rewrite lookup_zip_with, Hm, Hb.
Qed.
End AccessorClaims.

(** C9, counterexample.  One serialized bias for two means: the constructor
    keeps the single bias, and [GetOffsetMeans] on the constructed block reads
    past the end of biases. *)
Lemma GetOffsetMeans_reads_past_biases :
  exists cb,
    ConvBlock_new Examples.as_vector Examples.one_bias = Ok (tt, cb) /\
    length (biases cb) = 1%nat /\ length (bn_means cb) = 2%nat /\
    GetOffsetMeans cb = Undefined OutOfBounds.
Proof.
  eexists. split; [vm_compute; reflexivity |].
  split; [reflexivity |]. split; [reflexivity |].
  vm_compute. reflexivity.
Qed.

(** [Examples.single] has a bias for its one mean. *)
Lemma GetOffsetMeans_spec_single :
  exists v,
    GetOffsetMeans Examples.single = Ok (v, Examples.single) /\
    length v = length (bn_means Examples.single) /\
    forall i m b,
      bn_means Examples.single !! i = Some m ->
      biases Examples.single !! i = Some b ->
      v !! i = Some (m - b)%flt.
Proof.
  apply (GetOffsetMeans_spec Examples.single). simpl. lia.
Defined.

(** ** FoldBN *)

Section FoldBNClaims.
Context {F : Type} `{Float32Ops F}.

Lemma foldable_folded (filterSize : N) (cb : ConvBlock F) n :
  foldable filterSize cb n -> foldable filterSize (folded filterSize cb) n.
Proof.
  intros (Hc & Hn & Hw).
  pose proof (length_scaled_gammas cb n Hc) as Hlg.
  pose proof (length_folded_biases cb n Hc) as Hlb.
  destruct Hc as (Hb & Hg & Hbe & Hm & Hsd).
  split; [| split]; [| done |].
  - unfold channels, folded; simpl. by rewrite !length_replicate.
  - unfold folded; simpl. by rewrite length_folded_weights.
Qed.

Lemma same_sizes_folded (filterSize : N) (cb : ConvBlock F) n :
  channels cb n -> same_sizes cb (folded filterSize cb).
Proof.
  intros Hc.
  pose proof (length_scaled_gammas cb n Hc) as Hlg.
  pose proof (length_folded_biases cb n Hc) as Hlb.
  destruct Hc as (Hb & Hg & Hbe & Hm & Hsd).
  intros []; simpl; rewrite ?length_replicate, ?length_folded_weights; lia.
Qed.

Lemma zip_with_replicate_r {A B C} (f : A -> B -> C) (l : list A) (y : B) n :
  length l = n -> zip_with f l (replicate n y) = (fun x => f x y) <$> l.
Proof.
  intros <-. induction l as [| x l IH]; simpl; [done |]. by rewrite IH.
Qed.

Lemma zip_with_replicate_l {A B C} (f : A -> B -> C) (x : A) (k : list B) n :
  length k = n -> zip_with f (replicate n x) k = f x <$> k.
Proof.
  intros <-. induction k as [| y k IH]; simpl; [done |]. by rewrite IH.
Qed.

(** C2 (as amended).  [FoldBN] checks no divisibility and reports no
    error.  On every block whose per-channel vectors have one length [n],
    with [0 < n * filterSize^2 < 2^64] and fewer than [2^64] weights,
    whether or not [n * filterSize^2] divides the weight count, it returns
    normally with the quotient [inputs] truncated: the first
    [n * inputs * filterSize^2] weights are scaled by the folded gamma of
    their output channel, the weights after them are left as they were,
    and the per-channel vectors are rewritten. *)
Theorem FoldBN_truncates_quotient (filterSize : N) (cb : ConvBlock F) (n : nat) :
  foldable filterSize cb n ->
  exists cb',
    FoldBN filterSize cb = Ok (tt, cb') /\
    let inputs := (N.of_nat (length (weights cb))
                   / (N.of_nat n * (filterSize * filterSize)))%N in
    let visited := (n * N.to_nat (inputs * (filterSize * filterSize)))%nat in
    (forall j w, (j < visited)%nat -> weights cb !! j = Some w ->
       weights cb' !! j
       = Some (w * at_ (bn_gammas cb')
                       (j / N.to_nat (inputs * (filterSize * filterSize))))%flt) /\
    (forall j, (visited <= j)%nat -> weights cb' !! j = weights cb !! j) /\
    bn_gammas cb' = scaled_gammas cb /\
    biases cb' = folded_biases cb /\
    bn_stddivs cb' = replicate n lit_1 /\
    bn_means cb' = replicate n lit_0 /\
    bn_betas cb' = replicate n lit_0.
Proof.
  intros Hfold. exists (folded filterSize cb).
  split; [by apply (FoldBN_folded filterSize cb n) |].
  destruct Hfold as (Hc & _). pose proof Hc as (Hb & Hg & Hbe & Hm & Hsd).
  assert (Hin : (N.of_nat (length (weights cb))
                 / (N.of_nat n * (filterSize * filterSize)))%N
                = fold_inputs filterSize cb)
    by (unfold fold_inputs; by rewrite Hb).
  simpl. rewrite Hin. repeat split.
  - intros j w Hj Hw. unfold folded_weights.
    rewrite list_lookup_imap, Hw. simpl.
    by rewrite decide_True by (rewrite Hb; lia).
  - intros j Hj. by apply (lookup_folded_weights_ge filterSize cb n).
  - by rewrite Hsd.
  - by rewrite Hm.
  - by rewrite Hbe.
Qed.

(** C7 (as amended).  A second [FoldBN] on a foldable block leaves
    bn_stddivs, bn_means, bn_betas and every vector size as the first fold
    left them, and rewrites the rest: every gamma is multiplied by
    [1 / sqrt (1.0 + 1e-5)], bias [o] becomes
    [- gamma_o * (0.0 - bias_o) + 0.0] with the new gamma, and the visited
    weights are multiplied by the new gamma of their output channel. *)
Theorem FoldBN_twice (filterSize : N) (cb : ConvBlock F) (n : nat) :
  foldable filterSize cb n ->
  exists cb1 cb2,
    FoldBN filterSize cb = Ok (tt, cb1) /\
    FoldBN filterSize cb1 = Ok (tt, cb2) /\
    bn_stddivs cb2 = bn_stddivs cb1 /\
    bn_means cb2 = bn_means cb1 /\
    bn_betas cb2 = bn_betas cb1 /\
    same_sizes cb1 cb2 /\
    bn_gammas cb2
    = (fun g => g * (lit_1 / fsqrt (lit_1 + lit_1e_5)))%flt <$> bn_gammas cb1 /\
    biases cb2
    = zip_with (fun g b => - g * (lit_0 - b) + lit_0)%flt
               (bn_gammas cb2) (biases cb1) /\
    weights cb2 = folded_weights filterSize cb1.
Proof.
  intros Hfold.
  pose proof (foldable_folded filterSize cb n Hfold) as Hfold1.
  exists (folded filterSize cb), (folded filterSize (folded filterSize cb)).
  split; [by apply (FoldBN_folded filterSize cb n) |].
  split; [by apply (FoldBN_folded filterSize _ n) |].
  destruct Hfold as (Hc & _). destruct Hfold1 as (Hc1 & _).
  pose proof (length_scaled_gammas cb n Hc) as Hlg.
  pose proof (length_folded_biases cb n Hc) as Hlb.
  pose proof (length_scaled_gammas _ n Hc1) as Hlg1.
  pose proof (length_folded_biases _ n Hc1) as Hlb1.
  destruct Hc as (Hb & Hg & Hbe & Hm & Hsd).
  assert (Hgammas : scaled_gammas (folded filterSize cb)
            = (fun g => g * (lit_1 / fsqrt (lit_1 + lit_1e_5)))%flt
              <$> scaled_gammas cb).
  { unfold scaled_gammas at 1. simpl. rewrite Hsd.
    by rewrite (zip_with_replicate_r _ _ _ n) by lia. }
  simpl. rewrite !length_replicate. repeat split; try done.
  - by apply (same_sizes_folded filterSize _ n).
  - unfold folded_biases at 1. rewrite Hgammas.
    unfold offset_means. simpl. rewrite Hm, Hbe.
    rewrite (zip_with_replicate_l _ _ _ n) by lia.
    rewrite (zip_with_replicate_r _ _ _ n)
      by (rewrite length_zip_with, !length_fmap; lia).
    rewrite zip_with_fmap_r.
    apply list_eq. intros i.
    rewrite !list_lookup_fmap, !lookup_zip_with, !list_lookup_fmap.
    destruct (scaled_gammas cb !! i); simpl; [| done].
    by destruct (folded_biases cb !! i).
Qed.

(** C10 (as amended).  On a block whose per-channel vectors all have
    length [n]: if [n > 0], [filterSize > 0] and [n * filterSize^2] does
    not overflow [size_t], every vector access and the division of
    [FoldBN] are defined, also when the quotient truncates, and no vector
    changes size; if [n = 0] or [filterSize = 0], or more generally if the
    wrapped product [n * filterSize^2] is zero, the division divides by
    zero. *)
Theorem FoldBN_defined_without_overflow (filterSize : N) (cb : ConvBlock F)
    (n : nat) :
  channels cb n ->
  ((0 < n)%nat -> (0 < filterSize)%N ->
   (N.of_nat n * (filterSize * filterSize) < SizeT.modulus)%N ->
   exists cb', FoldBN filterSize cb = Ok (tt, cb') /\ same_sizes cb cb') /\
  (n = 0%nat \/ filterSize = 0%N ->
   FoldBN filterSize cb = Undefined DivisionByZero) /\
  (SizeT.mul (N.of_nat n) (SizeT.mul filterSize filterSize) = 0%N ->
   FoldBN filterSize cb = Undefined DivisionByZero).
Proof.
  intros Hc. repeat split.
  - intros Hn Hfs Hlt. apply (FoldBN_defined filterSize cb n Hc). nia.
  - intros Hz. apply (FoldBN_division_by_zero filterSize cb n Hc).
    destruct Hz as [-> | ->]; [done |].
    unfold SizeT.mul, SizeT.wrap. simpl. by rewrite N.mul_0_r.
  - apply (FoldBN_division_by_zero filterSize cb n Hc).
Qed.
End FoldBNClaims.




(** In binary32 the two sides agree only up to rounding: on
    [Examples.single] and an input of ones they differ in the last bits. *)
Remark folding_rounds_in_binary32 :
  exists cb',
    FoldBN 1 Examples.single = Ok (tt, cb') /\
    convolution cb' 1 1 0 (receptive_field 1 Examples.ones 0 0)
    <> batch_norm Examples.single 0
         (convolution Examples.single 1 1 0
            (receptive_field 1 Examples.ones 0 0)).
Proof. eexists. split; [vm_compute; reflexivity |]. vm_compute. discriminate. Qed.

(** C2, counterexample.  Twelve does not divide ten, yet [FoldBN 2] returns
    normally on [Examples.ragged], with the quotient truncated to zero (no
    weight is scaled) and the variances overwritten by 1.0. *)
Lemma FoldBN_accepts_ragged_weights :
  (N.of_nat (length (weights Examples.ragged))
   mod (N.of_nat (length (biases Examples.ragged)) * (2 * 2)) <> 0)%N /\
  exists cb',
    FoldBN 2 Examples.ragged = Ok (tt, cb') /\
    weights cb' = weights Examples.ragged /\
    bn_stddivs Examples.ragged = Examples.f32 [4; 4; 4]%Z /\
    bn_stddivs cb' = Examples.f32 [1; 1; 1]%Z /\
    cb' <> Examples.ragged.
Proof.
  split; [done |]. eexists. split; [vm_compute; reflexivity |].
  repeat split. vm_compute. discriminate.
Qed.

(** [Examples.ragged] meets the premise of the amended C2. *)
Lemma FoldBN_truncates_quotient_ragged :
  foldable 2 Examples.ragged 3 /\
  exists cb',
    FoldBN 2 Examples.ragged = Ok (tt, cb') /\
    let inputs := (N.of_nat (length (weights Examples.ragged))
                   / (N.of_nat 3 * (2 * 2)))%N in
    let visited := (3 * N.to_nat (inputs * (2 * 2)))%nat in
    (forall j w, (j < visited)%nat -> weights Examples.ragged !! j = Some w ->
       weights cb' !! j
       = Some (w * at_ (bn_gammas cb') (j / N.to_nat (inputs * (2 * 2))))%flt) /\
    (forall j, (visited <= j)%nat ->
       weights cb' !! j = weights Examples.ragged !! j) /\
    bn_gammas cb' = scaled_gammas Examples.ragged /\
    biases cb' = folded_biases Examples.ragged /\
    bn_stddivs cb' = replicate 3 lit_1 /\
    bn_means cb' = replicate 3 lit_0 /\
    bn_betas cb' = replicate 3 lit_0.
Proof.
  assert (Hfold : foldable 2 Examples.ragged 3).
  { split; [| split].
    - repeat split.
    - split; reflexivity.
    - reflexivity. }
  split; [exact Hfold |].
  exact (FoldBN_truncates_quotient 2 Examples.ragged 3 Hfold).
Defined.

(** C7, counterexample.  Folding [Examples.single] a second time changes
    its weight, its gamma and its bias. *)
Lemma FoldBN_second_fold_rescales :
  exists cb1 cb2,
    FoldBN 1 Examples.single = Ok (tt, cb1) /\
    FoldBN 1 cb1 = Ok (tt, cb2) /\
    weights cb2 <> weights cb1 /\
    bn_gammas cb2 <> bn_gammas cb1 /\
    biases cb2 <> biases cb1.
Proof.
  do 2 eexists. split; [vm_compute; reflexivity |].
  split; [vm_compute; reflexivity |].
  repeat split; vm_compute; discriminate.
Qed.

(** [Examples.single] meets the premise of the amended C7. *)
Lemma FoldBN_twice_single :
  foldable 1 Examples.single 1 /\
  exists cb1 cb2,
    FoldBN 1 Examples.single = Ok (tt, cb1) /\
    FoldBN 1 cb1 = Ok (tt, cb2) /\
    bn_stddivs cb2 = bn_stddivs cb1 /\
    bn_means cb2 = bn_means cb1 /\
    bn_betas cb2 = bn_betas cb1 /\
    same_sizes cb1 cb2 /\
    bn_gammas cb2
    = (fun g => g * (lit_1 / fsqrt (lit_1 + lit_1e_5)))%flt <$> bn_gammas cb1 /\
    biases cb2
    = zip_with (fun g b => - g * (lit_0 - b) + lit_0)%flt
               (bn_gammas cb2) (biases cb1) /\
    weights cb2 = folded_weights 1 cb1.
Proof.
  assert (Hfold : foldable 1 Examples.single 1).
  { split; [| split].
    - repeat split.
    - split; reflexivity.
    - reflexivity. }
  split; [exact Hfold |].
  exact (FoldBN_twice 1 Examples.single 1 Hfold).
Defined.

(** C10, counterexample.  One channel and [filterSize = 2^32]: both are
    positive, but [filterSize * filterSize] wraps to zero in [size_t] and
    the division divides by zero. *)
Lemma FoldBN_filter_size_overflow :
  channels Examples.single 1 /\
  (0 < 1)%nat /\ (0 < 2 ^ 32)%N /\
  FoldBN (2 ^ 32) Examples.single = Undefined DivisionByZero.
Proof.
  split; [repeat split |]. split; [lia |]. split; [reflexivity |].
  vm_compute. reflexivity.
Qed.

(** [Examples.ragged] meets the premise of the amended C10. *)
Lemma FoldBN_defined_without_overflow_ragged :
  channels Examples.ragged 3 /\
  ((0 < 3)%nat -> (0 < 2)%N -> (N.of_nat 3 * (2 * 2) < SizeT.modulus)%N ->
   exists cb',
     FoldBN 2 Examples.ragged = Ok (tt, cb') /\
     same_sizes Examples.ragged cb') /\
  (3%nat = 0%nat \/ 2%N = 0%N ->
   FoldBN 2 Examples.ragged = Undefined DivisionByZero) /\
  (SizeT.mul (N.of_nat 3) (SizeT.mul 2 2) = 0%N ->
   FoldBN 2 Examples.ragged = Undefined DivisionByZero).
Proof.
  assert (Hc : channels Examples.ragged 3) by (repeat split).
  split; [exact Hc |].
  exact (FoldBN_defined_without_overflow 2 Examples.ragged 3 Hc).
Defined.

(** * Further properties of the translation unit *)

(** ** Runs that return *)

Section Returns.
Context {F : Type} `{Float32Ops F}.

Local Open Scope method_scope.

Lemma bind_returns {A B} (c : method F A) (k : A -> method F B) cb r :
  bind c k cb = Ok r -> exists a cb1, c cb = Ok (a, cb1) /\ k a cb1 = Ok r.
Proof.
  unfold bind. destruct (c cb) as [[a cb1] | e]; [| done]. by exists a, cb1.
Qed.

Lemma load_returns (m : member) (i : N) (cb : ConvBlock F) (x : F) cb' :
  load m i cb = Ok (x, cb') ->
  cb' = cb /\ get_member m cb !! N.to_nat i = Some x.
Proof.
  unfold load. destruct (get_member m cb !! N.to_nat i); [| done].
  by intros [= -> ->].
Qed.

Lemma store_returns (m : member) (i : N) (x : F) (cb cb' : ConvBlock F) :
  store m i x cb = Ok (tt, cb') ->
  (N.to_nat i < length (get_member m cb))%nat /\
  cb' = set_member m (<[N.to_nat i := x]> (get_member m cb)) cb.
Proof.
  unfold store. destruct (decide _); [| done]. by intros [= <-].
Qed.

Lemma store_returns_same_sizes (m : member) (i : N) (x : F) cb0 cb cb' :
  same_sizes cb0 cb -> store m i x cb = Ok (tt, cb') -> same_sizes cb0 cb'.
Proof.
  intros Hs [_ ->]%store_returns m'.
  destruct (decide (m = m')) as [<- | Hne].
  - by rewrite get_set_member, length_insert.
  - by rewrite get_set_member_ne.
Qed.

(** A loop whose iterations keep [P] ends in [P], if it ends. *)
Lemma for_from_returns (P : ConvBlock F -> Prop) (body : N -> method F unit)
    k i0 cb cb' :
  (forall i cb1 cb2, P cb1 -> body i cb1 = Ok (tt, cb2) -> P cb2) ->
  P cb -> for_from k i0 body cb = Ok (tt, cb') -> P cb'.
Proof.
  intros Hbody. revert i0 cb.
  induction k as [| k IH]; intros i0 cb HP Hrun; simpl in Hrun.
  - by injection Hrun as <-.
  - apply bind_returns in Hrun as ([] & cb1 & Hstep & Hrest).
    eapply IH; [| done]. by eapply Hbody.
Qed.

Lemma for_returns (P : ConvBlock F -> Prop) (body : N -> method F unit)
    n cb cb' :
  (forall i cb1 cb2, P cb1 -> body i cb1 = Ok (tt, cb2) -> P cb2) ->
  P cb -> for_ n body cb = Ok (tt, cb') -> P cb'.
Proof. apply for_from_returns. Qed.

(** X3.  Whatever the block and the filter size, a [FoldBN] that returns has
    resized no vector. *)
Theorem FoldBN_never_resizes (filterSize : N) (cb cb' : ConvBlock F) :
  FoldBN filterSize cb = Ok (tt, cb') -> same_sizes cb cb'.
Proof.
  unfold FoldBN. intros Hrun.
  apply bind_returns in Hrun as (n & cb1 & Hsize & Hrun).
  injection Hsize as <- <-.
  apply bind_returns in Hrun as ([] & cb1 & Hloop1 & Hrun).
  assert (Hs1 : same_sizes cb cb1).
  { revert Hloop1. apply for_returns; [| done].
    clear. intros i cb1 cb2 Hs Hbody.
    apply bind_returns in Hbody as (g & ? & [-> _]%load_returns & Hbody).
    apply bind_returns in Hbody as (sd & ? & [-> _]%load_returns & Hbody).
    apply bind_returns in Hbody as ([] & cb3 & Hst1 & Hbody).
    apply bind_returns in Hbody as ([] & cb4 & Hst2 & Hbody).
    apply bind_returns in Hbody as (m & ? & [-> _]%load_returns & Hbody).
    apply bind_returns in Hbody as (b & ? & [-> _]%load_returns & Hbody).
    apply bind_returns in Hbody as ([] & cb5 & Hst3 & Hst4).
    eauto using store_returns_same_sizes. }
  apply bind_returns in Hrun as (outputs & ? & Hsize & Hrun).
  injection Hsize as <- <-.
  apply bind_returns in Hrun as (nweights & ? & Hsize & Hrun).
  injection Hsize as <- <-.
  apply bind_returns in Hrun as (inputs & cb2 & Hdiv & Hrun).
  assert (cb2 = cb1) as ->.
  { unfold udiv in Hdiv. destruct (SizeT.div _ _); [| done].
    by injection Hdiv as _ <-. }
  revert Hrun. apply for_returns; [| done].
  clear. intros o cb1 cb2 Hs Hbody.
  apply bind_returns in Hbody as ([] & cb3 & Hweights & Hbody).
  assert (Hs3 : same_sizes cb cb3).
  { revert Hweights. apply for_returns; [| done].
    intros c cb4 cb5 Hs4. apply for_returns; [| done].
    clear. intros i cb1 cb2 Hs Hbody. simpl in Hbody.
    apply bind_returns in Hbody as (w & ? & [-> _]%load_returns & Hbody).
    apply bind_returns in Hbody as (g & ? & [-> _]%load_returns & Hbody).
    eauto using store_returns_same_sizes. }
  apply bind_returns in Hbody as (g & ? & [-> _]%load_returns & Hbody).
  apply bind_returns in Hbody as (m & ? & [-> _]%load_returns & Hbody).
  apply bind_returns in Hbody as (be & ? & [-> _]%load_returns & Hbody).
  apply bind_returns in Hbody as ([] & cb4 & Hst1 & Hbody).
  apply bind_returns in Hbody as ([] & cb5 & Hst2 & Hst3).
  eauto using store_returns_same_sizes.
Qed.
End Returns.

(** ** Runs that go out of bounds *)

Section OutOfBounds.
Context {F : Type} `{Float32Ops F}.

Local Open Scope method_scope.

Lemma load_undefined (m : member) (i : N) (cb0 cb : ConvBlock F) :
  same_sizes cb0 cb ->
  (length (get_member m cb0) <= N.to_nat i)%nat ->
  load m i cb = Undefined OutOfBounds.
Proof.
  intros Hs Hi. unfold load.
  by rewrite lookup_ge_None_2 by (rewrite Hs; lia).
Qed.

(** A loop that reaches an iteration that fails, fails. *)
Lemma for_from_undefined (P : ConvBlock F -> Prop) (body : N -> method F unit)
    k i0 j cb e :
  P cb -> (i0 <= j < i0 + N.of_nat k)%N ->
  (forall i cb1, (i0 <= i < j)%N -> P cb1 ->
     exists cb2, body i cb1 = Ok (tt, cb2) /\ P cb2) ->
  (forall cb1, P cb1 -> body j cb1 = Undefined e) ->
  for_from k i0 body cb = Undefined e.
Proof.
  revert i0 cb. induction k as [| k IH]; intros i0 cb HP Hj Hok Hfail;
    [lia |]. simpl.
  destruct (decide (i0 = j)) as [-> | Hne].
  - apply bind_undefined. by apply Hfail.
  - destruct (Hok i0 cb) as (cb2 & Hstep & HP2); [lia | done |].
    rewrite (bind_ok _ _ _ tt cb2 Hstep).
    apply IH; [done | lia | | done].
    intros i cb1 Hi. apply Hok. lia.
Qed.

Lemma variance_to_gamma_defined (cb0 cb : ConvBlock F) (i : N) :
  same_sizes cb0 cb ->
  (N.to_nat i < length (bn_gammas cb0))%nat ->
  (N.to_nat i < length (bn_stddivs cb0))%nat ->
  (N.to_nat i < length (bn_means cb0))%nat ->
  (N.to_nat i < length (biases cb0))%nat ->
  exists cb',
    (g <- load BnGammas i ;;
     sd <- load BnStddivs i ;;
     store BnGammas i (g * (lit_1 / fsqrt (sd + lit_1e_5)))%flt ;;
     store BnStddivs i lit_1 ;;
     m <- load BnMeans i ;;
     b <- load Biases i ;;
     store BnMeans i (m - b)%flt ;;
     store Biases i lit_0) cb = Ok (tt, cb')
    /\ same_sizes cb0 cb'.
Proof.
  intros Hs Hg Hsd Hm Hb.
  destruct (load_defined BnGammas i cb0 cb) as [g Hgi]; [done | done |].
  destruct (load_defined BnStddivs i cb0 cb) as [sd Hsdi]; [done | done |].
  rewrite (bind_ok _ _ _ g cb Hgi), (bind_ok _ _ _ sd cb Hsdi).
  destruct (store_defined BnGammas i (g * (lit_1 / fsqrt (sd + lit_1e_5)))%flt
              cb0 cb) as (cb1 & Hst1 & Hs1); [done | done |].
  rewrite (bind_ok _ _ _ tt cb1 Hst1).
  destruct (store_defined BnStddivs i lit_1 cb0 cb1)
    as (cb2 & Hst2 & Hs2); [done | done |].
  rewrite (bind_ok _ _ _ tt cb2 Hst2).
  destruct (load_defined BnMeans i cb0 cb2) as [m Hmi]; [done | done |].
  destruct (load_defined Biases i cb0 cb2) as [b Hbi]; [done | done |].
  rewrite (bind_ok _ _ _ m cb2 Hmi), (bind_ok _ _ _ b cb2 Hbi).
  destruct (store_defined BnMeans i (m - b)%flt cb0 cb2)
    as (cb3 & Hst3 & Hs3); [done | done |].
  rewrite (bind_ok _ _ _ tt cb3 Hst3).
  by apply store_defined.
Qed.

Lemma variance_to_gamma_out_of_bounds (cb0 cb : ConvBlock F) (i : N) :
  same_sizes cb0 cb ->
  (N.to_nat i < length (bn_stddivs cb0))%nat ->
  (length (bn_gammas cb0) <= N.to_nat i \/
   length (bn_means cb0) <= N.to_nat i \/
   length (biases cb0) <= N.to_nat i)%nat ->
  (g <- load BnGammas i ;;
   sd <- load BnStddivs i ;;
   store BnGammas i (g * (lit_1 / fsqrt (sd + lit_1e_5)))%flt ;;
   store BnStddivs i lit_1 ;;
   m <- load BnMeans i ;;
   b <- load Biases i ;;
   store BnMeans i (m - b)%flt ;;
   store Biases i lit_0) cb = Undefined OutOfBounds.
Proof.
  intros Hs Hsd Hshort.
  destruct (decide (N.to_nat i < length (bn_gammas cb0))%nat) as [Hg | Hg];
    [| apply bind_undefined, (load_undefined _ _ cb0); [done | simpl; lia]].
  destruct (load_defined BnGammas i cb0 cb) as [g Hgi]; [done | done |].
  destruct (load_defined BnStddivs i cb0 cb) as [sd Hsdi]; [done | done |].
  rewrite (bind_ok _ _ _ g cb Hgi), (bind_ok _ _ _ sd cb Hsdi).
  destruct (store_defined BnGammas i (g * (lit_1 / fsqrt (sd + lit_1e_5)))%flt
              cb0 cb) as (cb1 & Hst1 & Hs1); [done | done |].
  rewrite (bind_ok _ _ _ tt cb1 Hst1).
  destruct (store_defined BnStddivs i lit_1 cb0 cb1)
    as (cb2 & Hst2 & Hs2); [done | done |].
  rewrite (bind_ok _ _ _ tt cb2 Hst2).
  destruct (decide (N.to_nat i < length (bn_means cb0))%nat) as [Hm | Hm];
    [| apply bind_undefined, (load_undefined _ _ cb0); [done | simpl; lia]].
  destruct (load_defined BnMeans i cb0 cb2) as [m Hmi]; [done | done |].
  rewrite (bind_ok _ _ _ m cb2 Hmi).
  apply bind_undefined, (load_undefined _ _ cb0); [done | simpl; lia].
Qed.

Lemma first_loop_out_of_bounds (cb : ConvBlock F) :
  (length (bn_gammas cb) < length (bn_stddivs cb) \/
   length (bn_means cb) < length (bn_stddivs cb) \/
   length (biases cb) < length (bn_stddivs cb))%nat ->
  for_ (N.of_nat (length (bn_stddivs cb))) (fun i =>
    g <- load BnGammas i ;;
    sd <- load BnStddivs i ;;
    store BnGammas i (g * (lit_1 / fsqrt (sd + lit_1e_5)))%flt ;;
    store BnStddivs i lit_1 ;;
    m <- load BnMeans i ;;
    b <- load Biases i ;;
    store BnMeans i (m - b)%flt ;;
    store Biases i lit_0) cb = Undefined OutOfBounds.
Proof.
  intros Hshort.
  set (j := (length (bn_gammas cb) `min` (length (bn_means cb)
               `min` length (biases cb)))%nat).
  apply (for_from_undefined (same_sizes cb) _ _ _ (N.of_nat j)); [done | lia | |].
  - intros i cb1 Hi Hs. apply variance_to_gamma_defined; [done | lia ..].
  - intros cb1 Hs. apply (variance_to_gamma_out_of_bounds cb); [done | lia ..].
Qed.

(** X2.  When bn_gammas, bn_means or biases is shorter than bn_stddivs, the
    first loop of [FoldBN] indexes past the end of a vector, whatever the
    filter size and before any division. *)
Theorem FoldBN_mismatched_statistics (filterSize : N) (cb : ConvBlock F) :
  (length (bn_gammas cb) < length (bn_stddivs cb) \/
   length (bn_means cb) < length (bn_stddivs cb) \/
   length (biases cb) < length (bn_stddivs cb))%nat ->
  FoldBN filterSize cb = Undefined OutOfBounds.
Proof.
  intros Hshort. unfold FoldBN.
  rewrite (bind_ok _ _ _ (N.of_nat (length (bn_stddivs cb))) cb) by done.
  apply bind_undefined. by apply first_loop_out_of_bounds.
Qed.
End OutOfBounds.

(** ** When exactly [FoldBN] is defined *)

Section Definedness.
Context {F : Type} `{Float32Ops F}.

Local Open Scope method_scope.

(** A run that either returns, sizes unchanged, or went out of bounds. *)
Lemma load_returns_or_out_of_bounds (m : member) (i : N) (cb : ConvBlock F) :
  (exists x, load m i cb = Ok (x, cb)) \/ load m i cb = Undefined OutOfBounds.
Proof.
  unfold load. destruct (get_member m cb !! N.to_nat i) as [x |]; eauto.
Qed.

Lemma store_returns_or_out_of_bounds (m : member) (i : N) (x : F)
    (cb0 cb : ConvBlock F) :
  same_sizes cb0 cb ->
  (exists cb', store m i x cb = Ok (tt, cb') /\ same_sizes cb0 cb') \/
  store m i x cb = Undefined OutOfBounds.
Proof.
  intros Hs. destruct (store m i x cb) as [[[] cb'] | e] eqn:Hst.
  - left. exists cb'. split; [done |]. by eapply store_returns_same_sizes.
  - right. unfold store in Hst. destruct (decide _); [done |].
    by injection Hst as <-.
Qed.

Lemma for_from_returns_or_out_of_bounds (body : N -> method F unit)
    (cb0 : ConvBlock F) k i0 cb :
  (forall i cb1, same_sizes cb0 cb1 ->
     (exists cb2, body i cb1 = Ok (tt, cb2) /\ same_sizes cb0 cb2) \/
     body i cb1 = Undefined OutOfBounds) ->
  same_sizes cb0 cb ->
  (exists cb', for_from k i0 body cb = Ok (tt, cb') /\ same_sizes cb0 cb') \/
  for_from k i0 body cb = Undefined OutOfBounds.
Proof.
  intros Hbody. revert i0 cb. induction k as [| k IH]; intros i0 cb Hs; simpl.
  - left. by exists cb.
  - destruct (Hbody i0 cb Hs) as [(cb2 & Hstep & Hs2) | Hfail].
    + rewrite (bind_ok _ _ _ tt cb2 Hstep). by apply IH.
    + right. by apply bind_undefined.
Qed.

Lemma scale_channel_returns_or_out_of_bounds (cb0 cb : ConvBlock F)
    (inputs spatialSize o : N) :
  same_sizes cb0 cb ->
  (exists cb',
     for_ inputs (fun c =>
       for_ spatialSize (fun i =>
         let idx := weight_index o inputs spatialSize c i in
         w <- load Weights idx ;;
         g <- load BnGammas o ;;
         store Weights idx (w * g)%flt)) cb = Ok (tt, cb')
     /\ same_sizes cb0 cb') \/
  for_ inputs (fun c =>
    for_ spatialSize (fun i =>
      let idx := weight_index o inputs spatialSize c i in
      w <- load Weights idx ;;
      g <- load BnGammas o ;;
      store Weights idx (w * g)%flt)) cb = Undefined OutOfBounds.
Proof.
  apply for_from_returns_or_out_of_bounds. intros c cb1 Hs1.
  apply for_from_returns_or_out_of_bounds; [| done]. intros i cb2 Hs2. simpl.
  destruct (load_returns_or_out_of_bounds Weights
              (weight_index o inputs spatialSize c i) cb2) as [[w Hw] | Hw];
    [| right; by apply bind_undefined].
  rewrite (bind_ok _ _ _ w cb2 Hw).
  destruct (load_returns_or_out_of_bounds BnGammas o cb2) as [[g Hg] | Hg];
    [| right; by apply bind_undefined].
  rewrite (bind_ok _ _ _ g cb2 Hg).
  by apply store_returns_or_out_of_bounds.
Qed.

(** One round of the second loop, for vectors of any sizes. *)
Lemma fold_channel_in_bounds (cb0 cb : ConvBlock F)
    (inputs spatialSize o : N) :
  same_sizes cb0 cb ->
  ((o + 1) * inputs * spatialSize <= N.of_nat (length (weights cb0)))%N ->
  (N.to_nat o < length (biases cb0))%nat ->
  (N.to_nat o < length (bn_gammas cb0))%nat ->
  (N.to_nat o < length (bn_means cb0))%nat ->
  (N.to_nat o < length (bn_betas cb0))%nat ->
  exists cb',
    (for_ inputs (fun c =>
       for_ spatialSize (fun i =>
         let idx := weight_index o inputs spatialSize c i in
         w <- load Weights idx ;;
         g <- load BnGammas o ;;
         store Weights idx (w * g)%flt)) ;;
     g <- load BnGammas o ;;
     m <- load BnMeans o ;;
     be <- load BnBetas o ;;
     store Biases o (- g * m + be)%flt ;;
     store BnMeans o lit_0 ;;
     store BnBetas o lit_0) cb = Ok (tt, cb')
    /\ same_sizes cb0 cb'.
Proof.
  intros Hs Hbound Hb Hg Hm Hbe.
  destruct (for_invariant (same_sizes cb0)
              (fun c => for_ spatialSize (fun i =>
                 let idx := weight_index o inputs spatialSize c i in
                 w <- load Weights idx ;;
                 g <- load BnGammas o ;;
                 store Weights idx (w * g)%flt)) inputs cb)
    as (cb1 & Hrun1 & Hs1); [done | |].
  { intros c cb2 Hci Hs2. apply for_invariant; [done |].
    intros i cb3 Hi Hs3. simpl.
    apply scale_weight_defined; [done | | done].
    pose proof (weight_index_le o inputs spatialSize c i) as Hle.
    assert (Hin : (c * spatialSize + i < inputs * spatialSize)%N) by nia.
    lia. }
  rewrite (bind_ok _ _ _ tt cb1 Hrun1).
  destruct (load_defined BnGammas o cb0 cb1) as [g Hgo]; [done | done |].
  destruct (load_defined BnMeans o cb0 cb1) as [m Hmo]; [done | done |].
  destruct (load_defined BnBetas o cb0 cb1) as [be Hbeo]; [done | done |].
  rewrite (bind_ok _ _ _ g cb1 Hgo), (bind_ok _ _ _ m cb1 Hmo),
    (bind_ok _ _ _ be cb1 Hbeo).
  destruct (store_defined Biases o (- g * m + be)%flt cb0 cb1)
    as (cb2 & Hrun2 & Hs2); [done | done |].
  rewrite (bind_ok _ _ _ tt cb2 Hrun2).
  destruct (store_defined BnMeans o lit_0 cb0 cb2)
    as (cb3 & Hrun3 & Hs3); [done | done |].
  rewrite (bind_ok _ _ _ tt cb3 Hrun3).
  by apply store_defined.
Qed.

Lemma fold_channel_out_of_bounds (cb0 cb : ConvBlock F)
    (inputs spatialSize o : N) :
  same_sizes cb0 cb ->
  (length (bn_gammas cb0) <= N.to_nat o \/
   length (bn_means cb0) <= N.to_nat o \/
   length (bn_betas cb0) <= N.to_nat o)%nat ->
  (for_ inputs (fun c =>
     for_ spatialSize (fun i =>
       let idx := weight_index o inputs spatialSize c i in
       w <- load Weights idx ;;
       g <- load BnGammas o ;;
       store Weights idx (w * g)%flt)) ;;
   g <- load BnGammas o ;;
   m <- load BnMeans o ;;
   be <- load BnBetas o ;;
   store Biases o (- g * m + be)%flt ;;
   store BnMeans o lit_0 ;;
   store BnBetas o lit_0) cb = Undefined OutOfBounds.
Proof.
  intros Hs Hshort.
  destruct (scale_channel_returns_or_out_of_bounds cb0 cb inputs spatialSize o Hs)
    as [(cb1 & Hrun1 & Hs1) | Hfail]; [| by apply bind_undefined].
  rewrite (bind_ok _ _ _ tt cb1 Hrun1).
  destruct (decide (N.to_nat o < length (bn_gammas cb0))%nat) as [Hg | Hg];
    [| apply bind_undefined, (load_undefined _ _ cb0); [done | simpl; lia]].
  destruct (load_defined BnGammas o cb0 cb1) as [g Hgo]; [done | done |].
  rewrite (bind_ok _ _ _ g cb1 Hgo).
  destruct (decide (N.to_nat o < length (bn_means cb0))%nat) as [Hm | Hm];
    [| apply bind_undefined, (load_undefined _ _ cb0); [done | simpl; lia]].
  destruct (load_defined BnMeans o cb0 cb1) as [m Hmo]; [done | done |].
  rewrite (bind_ok _ _ _ m cb1 Hmo).
  apply bind_undefined, (load_undefined _ _ cb0); [done | simpl; lia].
Qed.

(** The first loop on vectors long enough for it. *)
Lemma FoldBN_first_loop_in_bounds (filterSize : N) (cb : ConvBlock F) :
  (length (bn_stddivs cb) <= length (bn_gammas cb))%nat ->
  (length (bn_stddivs cb) <= length (bn_means cb))%nat ->
  (length (bn_stddivs cb) <= length (biases cb))%nat ->
  exists cb1,
    same_sizes cb cb1 /\
    FoldBN filterSize cb
    = (let spatialSize := SizeT.mul filterSize filterSize in
       let outputs := N.of_nat (length (biases cb)) in
       inputs <- udiv (N.of_nat (length (weights cb)))
                      (SizeT.mul outputs spatialSize) ;;
       for_ outputs (fun o =>
         for_ inputs (fun c =>
           for_ spatialSize (fun i =>
             let idx := weight_index o inputs spatialSize c i in
             w <- load Weights idx ;;
             g <- load BnGammas o ;;
             store Weights idx (w * g)%flt)) ;;
         g <- load BnGammas o ;;
         m <- load BnMeans o ;;
         be <- load BnBetas o ;;
         store Biases o (- g * m + be)%flt ;;
         store BnMeans o lit_0 ;;
         store BnBetas o lit_0)) cb1.
Proof.
  intros Hg Hm Hb.
  destruct (for_invariant (same_sizes cb)
              (fun i =>
                 g <- load BnGammas i ;;
                 sd <- load BnStddivs i ;;
                 store BnGammas i (g * (lit_1 / fsqrt (sd + lit_1e_5)))%flt ;;
                 store BnStddivs i lit_1 ;;
                 m <- load BnMeans i ;;
                 b <- load Biases i ;;
                 store BnMeans i (m - b)%flt ;;
                 store Biases i lit_0)
              (N.of_nat (length (bn_stddivs cb))) cb)
    as (cb1 & Hloop & Hs1); [done | |].
  { intros i cb2 Hi Hs2. apply variance_to_gamma_defined; [done | lia ..]. }
  exists cb1. split; [done |]. unfold FoldBN.
  rewrite (bind_ok _ _ _ (N.of_nat (length (bn_stddivs cb))) cb) by done.
  rewrite (bind_ok _ _ _ tt cb1 Hloop).
  rewrite (bind_ok _ _ _ (N.of_nat (length (biases cb))) cb1)
    by (unfold size; by rewrite (Hs1 Biases)).
  by rewrite (bind_ok _ _ _ (N.of_nat (length (weights cb))) cb1)
    by (unfold size; by rewrite (Hs1 Weights)).
Qed.

(** X1.  As long as [len(biases) * filterSize^2] does not overflow [size_t],
    [FoldBN] returns exactly when there is at least one bias, the filter
    size is not zero, bn_gammas, bn_means and biases are at least as long
    as bn_stddivs, and bn_gammas, bn_means and bn_betas are at least as
    long as biases.  The number of weights plays no part. *)
Theorem FoldBN_defined_iff (filterSize : N) (cb : ConvBlock F) :
  (N.of_nat (length (biases cb)) * (filterSize * filterSize)
   < SizeT.modulus)%N ->
  (exists cb', FoldBN filterSize cb = Ok (tt, cb')) <->
  (0 < length (biases cb))%nat /\ (0 < filterSize)%N /\
  (length (bn_stddivs cb) <= length (bn_gammas cb))%nat /\
  (length (bn_stddivs cb) <= length (bn_means cb))%nat /\
  (length (bn_stddivs cb) <= length (biases cb))%nat /\
  (length (biases cb) <= length (bn_gammas cb))%nat /\
  (length (biases cb) <= length (bn_means cb))%nat /\
  (length (biases cb) <= length (bn_betas cb))%nat.
Proof.
  intros Hfit.
  set (nb := length (biases cb)) in *.
  assert (Hspatial : (0 < nb)%nat ->
            SizeT.mul filterSize filterSize = (filterSize * filterSize)%N).
  { intros Hnb. unfold SizeT.mul, SizeT.wrap. apply N.mod_small. nia. }
  assert (Hprod : SizeT.mul (N.of_nat nb) (filterSize * filterSize)
                  = (N.of_nat nb * (filterSize * filterSize))%N).
  { unfold SizeT.mul, SizeT.wrap. by apply N.mod_small. }
  split.
  - intros [cb' Hrun].
    destruct (decide (length (bn_stddivs cb) <= length (bn_gammas cb) /\
                      length (bn_stddivs cb) <= length (bn_means cb) /\
                      length (bn_stddivs cb) <= nb)%nat)
      as [(Hg & Hm & Hb) | Hshort].
    2:{ unfold FoldBN in Hrun.
        rewrite (bind_ok _ _ _ (N.of_nat (length (bn_stddivs cb))) cb)
          in Hrun by done.
        rewrite (bind_undefined _ _ _ OutOfBounds) in Hrun; [done |].
        apply first_loop_out_of_bounds. fold nb. lia. }
    destruct (FoldBN_first_loop_in_bounds filterSize cb Hg Hm Hb)
      as (cb1 & Hs1 & Heq).
    rewrite Heq in Hrun. clear Heq. simpl in Hrun. fold nb in Hrun.
    destruct (decide (0 < nb)%nat) as [Hnb | Hnb].
    2:{ replace nb with 0%nat in Hrun by lia. by vm_compute in Hrun. }
    rewrite (Hspatial Hnb), Hprod in Hrun.
    destruct (decide (0 < filterSize)%N) as [Hfs | Hfs].
    2:{ replace filterSize with 0%N in Hrun by lia.
        rewrite N.mul_0_r in Hrun. by vm_compute in Hrun. }
    unfold udiv, SizeT.div in Hrun.
    destruct (N.eqb_spec (N.of_nat nb * (filterSize * filterSize)) 0)
      as [E | _]; [nia |].
    rewrite (bind_ok _ _ _
               (N.of_nat (length (weights cb))
                / (N.of_nat nb * (filterSize * filterSize)))%N cb1)
      in Hrun by done.
    repeat split; try done.
    all: destruct (decide (nb <= length (bn_gammas cb) /\
                           nb <= length (bn_means cb) /\
                           nb <= length (bn_betas cb))%nat)
           as [(? & ? & ?) | Hshort]; [done |]; exfalso.
    all: set (j := (length (bn_gammas cb) `min` (length (bn_means cb)
                      `min` length (bn_betas cb)))%nat).
    all: unfold for_ in Hrun;
      rewrite (for_from_undefined (same_sizes cb) _ _ _ (N.of_nat j) cb1
                 OutOfBounds) in Hrun; [done | done | lia | |].
    all: try (intros cb2 Hs2;
              apply (fold_channel_out_of_bounds cb); [done | lia]).
    all: intros i cb2 Hi Hs2;
      apply fold_channel_in_bounds; [done | | lia ..].
    all: pose proof (N.Div0.mul_div_le (N.of_nat (length (weights cb)))
                       (N.of_nat nb * (filterSize * filterSize))) as Hle;
      nia.
  - intros (Hnb & Hfs & Hg & Hm & Hb & Hg' & Hm' & Hbe').
    fold nb in Hb, Hg', Hm', Hbe'.
    destruct (FoldBN_first_loop_in_bounds filterSize cb Hg Hm Hb)
      as (cb1 & Hs1 & ->).
    simpl. fold nb. rewrite (Hspatial Hnb), Hprod.
    unfold udiv, SizeT.div.
    destruct (N.eqb_spec (N.of_nat nb * (filterSize * filterSize)) 0)
      as [E | _]; [nia |].
    rewrite (bind_ok _ _ _
               (N.of_nat (length (weights cb))
                / (N.of_nat nb * (filterSize * filterSize)))%N cb1) by done.
    destruct (for_invariant (same_sizes cb)
      (fun o =>
         for_ (N.of_nat (length (weights cb))
               / (N.of_nat nb * (filterSize * filterSize)))%N (fun c =>
           for_ (filterSize * filterSize)%N (fun i =>
             let idx := weight_index o
               (N.of_nat (length (weights cb))
                / (N.of_nat nb * (filterSize * filterSize)))%N
               (filterSize * filterSize)%N c i in
             w <- load Weights idx ;;
             g <- load BnGammas o ;;
             store Weights idx (w * g)%flt)) ;;
         g <- load BnGammas o ;;
         m <- load BnMeans o ;;
         be <- load BnBetas o ;;
         store Biases o (- g * m + be)%flt ;;
         store BnMeans o lit_0 ;;
         store BnBetas o lit_0) (N.of_nat nb) cb1)
      as (cb2 & Hrun & _); [done | | by exists cb2].
    intros o cb2 Ho Hs2.
    apply fold_channel_in_bounds; [done | | fold nb; lia ..].
    pose proof (N.Div0.mul_div_le (N.of_nat (length (weights cb)))
                  (N.of_nat nb * (filterSize * filterSize))) as Hle.
    nia.
Qed.
End Definedness.

(** ** The layout of the weights *)

Section Layout.
Local Open Scope N_scope.

(** X4.  Distinct (output, input, tap) triples address distinct weights, as
    long as the index expression does not overflow: one [FoldBN] scales no
    weight twice. *)
Theorem weight_index_injective (inputs spatialSize o c i o' c' i' : N) :
  c < inputs -> i < spatialSize -> c' < inputs -> i' < spatialSize ->
  o * inputs * spatialSize + c * spatialSize + i < SizeT.modulus ->
  o' * inputs * spatialSize + c' * spatialSize + i' < SizeT.modulus ->
  weight_index o inputs spatialSize c i
  = weight_index o' inputs spatialSize c' i' ->
  o = o' /\ c = c' /\ i = i'.
Proof.
  intros Hc Hi Hc' Hi' Hfit Hfit'.
  rewrite !weight_index_exact by done. intros Heq.
  destruct (N.div_mod_unique (inputs * spatialSize) o o'
              (c * spatialSize + i) (c' * spatialSize + i'))
    as [-> Hrem]; [nia | nia | lia |].
  destruct (N.div_mod_unique spatialSize c c' i i') as [-> ->];
    [done | done | lia |]. done.
Qed.

(** X5.  Every position below [outputs * inputs * spatialSize] is the index of
    a triple the loops visit. *)
Theorem weight_index_covers (outputs inputs spatialSize j : N) :
  j < outputs * inputs * spatialSize ->
  outputs * inputs * spatialSize < SizeT.modulus ->
  exists o c i,
    o < outputs /\ c < inputs /\ i < spatialSize /\
    weight_index o inputs spatialSize c i = j.
Proof.
  intros Hj Hfit.
  assert (Hs : spatialSize <> 0) by (intros ->; lia).
  assert (Hi : inputs <> 0) by (intros ->; lia).
  exists (j / (inputs * spatialSize)),
         (j mod (inputs * spatialSize) / spatialSize),
         (j mod spatialSize).
  pose proof (N.div_mod j (inputs * spatialSize)) as Hdm.
  pose proof (N.mod_upper_bound j (inputs * spatialSize)) as Hub.
  pose proof (N.div_mod (j mod (inputs * spatialSize)) spatialSize Hs) as Hdm2.
  pose proof (N.mod_upper_bound (j mod (inputs * spatialSize)) spatialSize Hs)
    as Hub2.
  assert (Hmm : (j mod (inputs * spatialSize)) mod spatialSize
                = j mod spatialSize).
  { rewrite (N.mul_comm inputs), N.Div0.mod_mul_r.
    rewrite (N.mul_comm spatialSize), N.Div0.mod_add.
    apply N.Div0.mod_mod. }
  rewrite Hmm in *.
  split; [apply N.Div0.div_lt_upper_bound; lia |].
  split; [apply N.Div0.div_lt_upper_bound; lia |].
  split; [by apply N.mod_upper_bound |].
  rewrite weight_index_exact; nia.
Qed.
End Layout.

(** ** The accessors and their in-place siblings *)

Section InPlace.
Context {F : Type} `{Float32Ops F}.

(** X9.  [GetOffsetMeans] and [OffsetMeans] are defined on the same blocks,
    those with a bias for every mean; there [OffsetMeans] stores in
    bn_means the vector [GetOffsetMeans] returns and writes nothing else.
    With fewer biases than means both read past the end of biases.
    [InvertStddev] always returns, storing in bn_stddivs the vector
    [GetInvertedStddev] returns. *)
Theorem in_place_matches_accessor (cb : ConvBlock F) :
  (exists v, GetInvertedStddev cb = Ok (v, cb) /\
             InvertStddev cb = Ok (tt, set_member BnStddivs v cb)) /\
  ((length (bn_means cb) <= length (biases cb))%nat ->
   exists v, GetOffsetMeans cb = Ok (v, cb) /\
             OffsetMeans cb = Ok (tt, set_member BnMeans v cb)) /\
  ((length (biases cb) < length (bn_means cb))%nat ->
   GetOffsetMeans cb = Undefined OutOfBounds /\
   OffsetMeans cb = Undefined OutOfBounds).
Proof.
  split; [by exists (InvertVector (bn_stddivs cb)) |]. split.
  - intros Hlen. exists (zip_with fsub (bn_means cb) (biases cb)).
    split; [| by apply OffsetMeans_writes].
    unfold GetOffsetMeans, bind, read. simpl.
    by rewrite OffsetVector_zip_with.
  - intros Hlen.
    unfold GetOffsetMeans, OffsetMeans, bind, read, on_member. simpl.
    by rewrite OffsetVector_out_of_bounds.
Qed.

(** X7.  [FoldBN] folds the statistics the accessors expose: on a foldable
    block the new gammas are the old gammas times [GetInvertedStddev],
    and the new biases are [- gamma * offset + beta] with the new gamma
    and the offset [GetOffsetMeans] returns. *)
Theorem FoldBN_folds_accessor_values (filterSize : N) (cb : ConvBlock F) (n : nat) :
  foldable filterSize cb n ->
  exists inverted offsets cb',
    GetInvertedStddev cb = Ok (inverted, cb) /\
    GetOffsetMeans cb = Ok (offsets, cb) /\
    FoldBN filterSize cb = Ok (tt, cb') /\
    bn_gammas cb' = zip_with fmul (bn_gammas cb) inverted /\
    biases cb'
    = zip_with fadd
        (zip_with (fun g off => - g * off)%flt (bn_gammas cb') offsets)
        (bn_betas cb).
Proof.
  intros Hfold. pose proof Hfold as ((Hb & Hg & Hbe & Hm & Hsd) & _).
  exists (InvertVector (bn_stddivs cb)),
         (zip_with fsub (bn_means cb) (biases cb)), (folded filterSize cb).
  split; [done |]. split.
  { unfold GetOffsetMeans, bind, read. simpl.
    by rewrite OffsetVector_zip_with by lia. }
  split; [by apply (FoldBN_folded filterSize cb n) |].
  split; [| done]. simpl.
  unfold scaled_gammas, InvertVector, kEpsilon. by rewrite zip_with_fmap_r.
Qed.

(** X8.  On a folded block the accessors do not return identity values:
    [GetInvertedStddev] returns [1 / sqrt (1.0 + 1e-5)] for every channel
    and [GetOffsetMeans] returns [0.0 - bias] with the folded bias. *)
Theorem accessors_after_FoldBN (filterSize : N) (cb : ConvBlock F) (n : nat) :
  foldable filterSize cb n ->
  exists cb',
    FoldBN filterSize cb = Ok (tt, cb') /\
    GetInvertedStddev cb'
    = Ok (replicate n (lit_1 / fsqrt (lit_1 + lit_1e_5))%flt, cb') /\
    GetOffsetMeans cb' = Ok ((fun b => lit_0 - b)%flt <$> biases cb', cb').
Proof.
  intros Hfold. pose proof Hfold as (Hc & _).
  pose proof (length_folded_biases cb n Hc) as Hlb.
  destruct Hc as (Hb & Hg & Hbe & Hm & Hsd).
  exists (folded filterSize cb).
  split; [by apply (FoldBN_folded filterSize cb n) |]. split.
  - unfold GetInvertedStddev, bind, read, ret, InvertVector, kEpsilon. simpl.
    by rewrite Hsd, fmap_replicate.
  - unfold GetOffsetMeans, bind, read. simpl.
    rewrite OffsetVector_zip_with
      by (rewrite length_replicate; lia).
    by rewrite Hm, (zip_with_replicate_l _ _ _ n).
Qed.

(** X6.  On a block whose weights are exactly [n * inputs * filterSize^2]
    many, [FoldBN] scales every weight, each by the folded gamma of its
    output channel [j / (inputs * filterSize^2)]. *)
Theorem FoldBN_scales_every_weight (filterSize inputs : N) (cb : ConvBlock F)
    (n : nat) :
  foldable filterSize cb n ->
  N.of_nat (length (weights cb))
  = (N.of_nat n * inputs * (filterSize * filterSize))%N ->
  exists cb',
    FoldBN filterSize cb = Ok (tt, cb') /\
    weights cb'
    = imap (fun j w =>
              (w * at_ (bn_gammas cb')
                       (j / N.to_nat (inputs * (filterSize * filterSize))))%flt)
           (weights cb).
Proof.
  intros Hfold Hshape. pose proof Hfold as (Hc & Hn & _).
  exists (folded filterSize cb).
  split; [by apply (FoldBN_folded filterSize cb n) |]. simpl.
  unfold folded_weights.
  rewrite (fold_inputs_exact filterSize inputs cb n) by (done || lia).
  destruct Hc as (Hb & _). rewrite Hb.
  apply list_eq. intros j. rewrite !list_lookup_imap.
  destruct (weights cb !! j) as [w |] eqn:Hw; [| done]. simpl.
  apply lookup_lt_Some in Hw.
  by rewrite decide_True by lia.
Qed.
End InPlace.

(** ** The constructor, then the member functions *)

Section AfterConstruction.
Context {F : Type} `{Float32Ops F}.
Context {Layer : Type} (as_vector : Layer -> list F).

Lemma constructed_channels (block : pblczero.ConvBlock Layer) (n : nat) :
  size_consistent as_vector block n ->
  channels (constructed (ConvBlock_init as_vector block)) n.
Proof.
  intros (Hm & Hsd & Hb & Hbe).
  unfold channels, constructed; simpl. repeat split; try done.
  - destruct Hb as [-> | Hb]; [by rewrite bool_decide_true, length_replicate |].
    by destruct (bool_decide _); rewrite ?length_replicate.
  - destruct Hbe as [[-> ->] | (Hne & _ & Hg)].
    + rewrite bool_decide_true by done. simpl. by rewrite length_replicate.
    + by rewrite bool_decide_false.
  - destruct Hbe as [[-> _] | (Hne & Hlen & _)].
    + by rewrite bool_decide_true, length_replicate.
    + by rewrite bool_decide_false.
Qed.

(** X10.  The constructor makes [GetOffsetMeans] safe only for blocks serialized
    without biases: there it returns [mean_i - 0.0]; serialized biases
    fewer than the means are kept, and [GetOffsetMeans] reads past them. *)
Theorem GetOffsetMeans_after_construction (block : pblczero.ConvBlock Layer) :
  exists cb,
    ConvBlock_new as_vector block = Ok (tt, cb) /\
    (as_vector (pblczero.biases block) = [] ->
     GetOffsetMeans cb
     = Ok ((fun m => m - lit_0)%flt <$> as_vector (pblczero.bn_means block), cb)) /\
    (as_vector (pblczero.biases block) <> [] ->
     (length (as_vector (pblczero.biases block))
      < length (as_vector (pblczero.bn_means block)))%nat ->
     GetOffsetMeans cb = Undefined OutOfBounds).
Proof.
  eexists. split; [apply ConvBlock_new_constructed |].
  unfold GetOffsetMeans, bind, read, constructed. simpl. split.
  - intros ->. rewrite bool_decide_true by done.
    rewrite OffsetVector_zip_with by (by rewrite length_replicate).
    by rewrite (zip_with_replicate_r _ _ _ _ eq_refl).
  - intros Hne Hlen. rewrite bool_decide_false by done.
    by rewrite OffsetVector_out_of_bounds.
Qed.

(** X11.  A block built from size-consistent serialized fields can be folded:
    with [n > 0] channels, a positive filter size and no [size_t]
    overflow, the constructor followed by [FoldBN] returns, and the folded
    block still has [n] entries in every per-channel vector. *)
Theorem FoldBN_after_construction (block : pblczero.ConvBlock Layer)
    (filterSize : N) (n : nat) :
  size_consistent as_vector block n ->
  (0 < N.of_nat n * (filterSize * filterSize) < SizeT.modulus)%N ->
  exists cb cb',
    ConvBlock_new as_vector block = Ok (tt, cb) /\
    FoldBN filterSize cb = Ok (tt, cb') /\
    channels cb' n.
Proof.
  intros Hsc Hn.
  pose proof (constructed_channels block n Hsc) as Hc.
  destruct (FoldBN_defined filterSize _ n Hc Hn) as (cb' & Hrun & Hs).
  eexists _, cb'. split; [apply ConvBlock_new_constructed |].
  split; [done |].
  destruct Hc as (Hb & Hg & Hbe & Hm & Hsd).
  pose proof (Hs Biases) as Hb'. pose proof (Hs BnGammas) as Hg'.
  pose proof (Hs BnBetas) as Hbe'. pose proof (Hs BnMeans) as Hm'.
  pose proof (Hs BnStddivs) as Hsd'. simpl in *.
  unfold channels. lia.
Qed.

End AfterConstruction.

(** ** The aggregate *)

Section AggregateFacts.
Context {F : Type} `{Float32Ops F}.
Context {Layer : Type} (as_vector : Layer -> list F).

Lemma ConvBlock_of_constructed (block : pblczero.ConvBlock Layer) :
  ConvBlock_of as_vector block
  = Ok (constructed (ConvBlock_init as_vector block)).
Proof.
  unfold ConvBlock_of. by rewrite ConvBlock_new_constructed.
Qed.

Lemma Residual_new_built (residual : pblczero.Residual Layer) :
  Residual_new as_vector residual = Ok (Residual_built as_vector residual).
Proof.
  unfold Residual_new. by rewrite !ConvBlock_of_constructed.
Qed.

Lemma emplace_residuals_built (rs : list (pblczero.Residual Layer))
    (tower : list (Legacy.Residual F)) :
  emplace_residuals as_vector rs tower
  = Ok (tower ++ (Residual_built as_vector <$> rs)).
Proof.
  revert tower. induction rs as [| res rs IH]; intros tower; simpl.
  - by rewrite app_nil_r.
  - rewrite Residual_new_built. simpl. rewrite IH.
    by rewrite <- app_assoc.
Qed.

Lemma LegacyWeights_new_built (w : pblczero.Weights Layer) :
  exists lw,
    LegacyWeights_new as_vector w = Ok lw /\
    Legacy.residual lw = Residual_built as_vector <$> pblczero.residual w /\
    conv_blocks lw
    = (fun b => constructed (ConvBlock_init as_vector b))
      <$> serialized_conv_blocks w.
Proof.
  eexists. split.
  { unfold LegacyWeights_new.
    rewrite !ConvBlock_of_constructed. simpl.
    rewrite emplace_residuals_built. simpl. reflexivity. }
  split; [done |].
  unfold conv_blocks, serialized_conv_blocks. simpl.
  rewrite fmap_app. f_equal. f_equal.
  induction (pblczero.residual w) as [| r rs IH]; [done |].
  csimpl. by rewrite IH.
Qed.

(** X13.  The aggregate is always built; its residual tower has one block per
    serialized residual block, in the serialized order, each the result of
    [Residual]'s constructor on its counterpart; the SE unit is flattened
    whether or not [has_se] is set. *)
Theorem LegacyWeights_new_keeps_tower_order (w : pblczero.Weights Layer) :
  exists lw,
    LegacyWeights_new as_vector w = Ok lw /\
    length (Legacy.residual lw) = length (pblczero.residual w) /\
    forall i r,
      pblczero.residual w !! i = Some r ->
      exists x,
        Legacy.residual lw !! i = Some x /\
        Residual_new as_vector r = Ok x /\
        Legacy.has_se x = pblczero.has_se r /\
        Legacy.se x = SEunit_new as_vector (pblczero.se r).
Proof.
  destruct (LegacyWeights_new_built w) as (lw & Hnew & Htower & _).
  exists lw. split; [done |]. rewrite Htower.
  split; [apply length_fmap |].
  intros i r Hr. exists (Residual_built as_vector r).
  split; [by rewrite list_lookup_fmap, Hr |].
  split; [apply Residual_new_built | done].
Qed.

(** X14.  Every ConvBlock of the aggregate (input, both blocks of each residual
    block, the policy and value heads) is what the ConvBlock constructor
    makes of its serialized counterpart; when every serialized block is
    size-consistent, every ConvBlock of the aggregate has per-channel
    vectors of one length. *)
Theorem LegacyWeights_new_conv_blocks (w : pblczero.Weights Layer) :
  exists lw,
    LegacyWeights_new as_vector w = Ok lw /\
    Forall2 (fun b cb => ConvBlock_new as_vector b = Ok (tt, cb))
            (serialized_conv_blocks w) (conv_blocks lw) /\
    (Forall (fun b => exists n, size_consistent as_vector b n)
            (serialized_conv_blocks w) ->
     Forall (fun cb => exists n, channels cb n) (conv_blocks lw)).
Proof.
  destruct (LegacyWeights_new_built w) as (lw & Hnew & _ & Hconv).
  exists lw. split; [done |]. rewrite Hconv. split.
  - apply Forall2_fmap_r, Forall_Forall2_diag, Forall_forall.
    intros b _. apply ConvBlock_new_constructed.
  - intros Hall. apply Forall_fmap. revert Hall. apply Forall_impl.
    intros b [n Hsc]. exists n. by apply constructed_channels.
Qed.
End AggregateFacts.

(** ** The further properties at work on concrete blocks *)

Lemma FoldBN_defined_iff_single :
  (N.of_nat (length (biases Examples.single)) * (1 * 1) < SizeT.modulus)%N /\
  ((exists cb', FoldBN 1 Examples.single = Ok (tt, cb')) <->
   (0 < length (biases Examples.single))%nat /\ (0 < 1)%N /\
   (length (bn_stddivs Examples.single) <= length (bn_gammas Examples.single))%nat /\
   (length (bn_stddivs Examples.single) <= length (bn_means Examples.single))%nat /\
   (length (bn_stddivs Examples.single) <= length (biases Examples.single))%nat /\
   (length (biases Examples.single) <= length (bn_gammas Examples.single))%nat /\
   (length (biases Examples.single) <= length (bn_means Examples.single))%nat /\
   (length (biases Examples.single) <= length (bn_betas Examples.single))%nat).
Proof.
  assert (Hfit : (N.of_nat (length (biases Examples.single)) * (1 * 1)
                  < SizeT.modulus)%N) by reflexivity.
  split; [exact Hfit |].
  exact (FoldBN_defined_iff 1 Examples.single Hfit).
Defined.

Lemma FoldBN_mismatched_statistics_short_bias :
  (length (biases Examples.short_bias)
   < length (bn_stddivs Examples.short_bias))%nat /\
  FoldBN 1 Examples.short_bias = Undefined OutOfBounds.
Proof.
  assert (Hshort : (length (biases Examples.short_bias)
                    < length (bn_stddivs Examples.short_bias))%nat)
    by (simpl; lia).
  split; [exact Hshort |].
  apply (FoldBN_mismatched_statistics 1 Examples.short_bias).
  right. right. exact Hshort.
Defined.

Lemma FoldBN_never_resizes_ragged :
  exists cb',
    FoldBN 2 Examples.ragged = Ok (tt, cb') /\
    same_sizes Examples.ragged cb'.
Proof.
  eexists. split; [vm_compute; reflexivity |].
  apply (FoldBN_never_resizes 2). vm_compute. reflexivity.
Defined.

Lemma weight_index_injective_example :
  (1 < 2)%N /\ (3 < 4)%N /\
  (1 = 1 /\ 1 = 1 /\ 3 = 3)%N.
Proof.
  split; [reflexivity |]. split; [reflexivity |].
  apply (weight_index_injective 2 4 1 1 3 1 1 3); reflexivity.
Defined.

Lemma weight_index_covers_example :
  (17 < 3 * 2 * 4)%N /\
  exists o c i,
    (o < 3)%N /\ (c < 2)%N /\ (i < 4)%N /\ weight_index o 2 4 c i = 17%N.
Proof.
  split; [reflexivity |].
  apply (weight_index_covers 3 2 4 17); reflexivity.
Defined.

Lemma foldable_single : foldable 1 Examples.single 1.
Proof.
  split; [| split].
  - repeat split.
  - split; reflexivity.
  - reflexivity.
Defined.

Lemma FoldBN_scales_every_weight_single :
  foldable 1 Examples.single 1 /\
  exists cb',
    FoldBN 1 Examples.single = Ok (tt, cb') /\
    weights cb'
    = imap (fun j w =>
              (w * at_ (bn_gammas cb') (j / N.to_nat (1 * (1 * 1))))%flt)
           (weights Examples.single).
Proof.
  split; [exact foldable_single |].
  apply (FoldBN_scales_every_weight 1 1 Examples.single 1 foldable_single).
  reflexivity.
Defined.

Lemma FoldBN_folds_accessor_values_single :
  foldable 1 Examples.single 1 /\
  exists inverted offsets cb',
    GetInvertedStddev Examples.single = Ok (inverted, Examples.single) /\
    GetOffsetMeans Examples.single = Ok (offsets, Examples.single) /\
    FoldBN 1 Examples.single = Ok (tt, cb') /\
    bn_gammas cb' = zip_with fmul (bn_gammas Examples.single) inverted /\
    biases cb'
    = zip_with fadd
        (zip_with (fun g off => - g * off)%flt (bn_gammas cb') offsets)
        (bn_betas Examples.single).
Proof.
  split; [exact foldable_single |].
  exact (FoldBN_folds_accessor_values 1 Examples.single 1 foldable_single).
Defined.

Lemma accessors_after_FoldBN_single :
  foldable 1 Examples.single 1 /\
  exists cb',
    FoldBN 1 Examples.single = Ok (tt, cb') /\
    GetInvertedStddev cb'
    = Ok (replicate 1 (lit_1 / fsqrt (lit_1 + lit_1e_5))%flt, cb') /\
    GetOffsetMeans cb' = Ok ((fun b => lit_0 - b)%flt <$> biases cb', cb').
Proof.
  split; [exact foldable_single |].
  exact (accessors_after_FoldBN 1 Examples.single 1 foldable_single).
Defined.

Lemma size_consistent_old_net :
  size_consistent Examples.as_vector Examples.old_net 2.
Proof.
  split; [reflexivity |]. split; [reflexivity |].
  split; [left; reflexivity | left; split; reflexivity].
Defined.

Lemma size_consistent_new_net :
  size_consistent Examples.as_vector Examples.new_net 2.
Proof.
  split; [reflexivity |]. split; [reflexivity |].
  split; [right; reflexivity |].
  right. split; [discriminate |]. split; reflexivity.
Defined.

Lemma FoldBN_after_construction_old_net :
  size_consistent Examples.as_vector Examples.old_net 2 /\
  exists cb cb',
    ConvBlock_new Examples.as_vector Examples.old_net = Ok (tt, cb) /\
    FoldBN 1 cb = Ok (tt, cb') /\
    channels cb' 2.
Proof.
  split; [exact size_consistent_old_net |].
  apply (FoldBN_after_construction Examples.as_vector Examples.old_net 1 2
           size_consistent_old_net).
  split; reflexivity.
Defined.


Lemma LegacyWeights_new_conv_blocks_net :
  exists lw,
    LegacyWeights_new Examples.as_vector Examples.net = Ok lw /\
    Forall (fun cb => exists n, channels cb n) (conv_blocks lw).
Proof.
  destruct (LegacyWeights_new_conv_blocks Examples.as_vector Examples.net)
    as (lw & Hnew & _ & Hall).
  exists lw. split; [exact Hnew |]. apply Hall.
  pose proof size_consistent_old_net as Hold.
  pose proof size_consistent_new_net as Hnewfmt.
  unfold serialized_conv_blocks. simpl.
  repeat (apply Forall_cons_2;
          [exists 2%nat; first [exact Hold | exact Hnewfmt] |]).
  apply Forall_nil_2.
Defined.
